(** * Plex watch-list sync: feed ingestion and vault synchronisation

    A shallow embedding of [src/main.ts] (class [PlexWatchlistPlugin]):
    [checkFeed], [updateWatchlist] and [updateWatchFile], together with the
    pieces of the host platform they call (the DOM queries, [fetch], the
    Obsidian vault).  JavaScript strings are modelled by [string]; every
    character the code inspects is ASCII, and all other code units pass
    through the string operations below unchanged. *)

From Stdlib Require Import Ascii String DecimalString.
From stdpp Require Import base option list strings gmap.

Local Open Scope string_scope.

(** ** Characters and string literals with characters Rocq cannot quote *)

Definition LF : string := String (ascii_of_nat 10) EmptyString.
Definition TAB : string := String (ascii_of_nat 9) EmptyString.
Definition DQUOTE : ascii := ascii_of_nat 34.
Definition DQ : string := String DQUOTE EmptyString.

(** ** JavaScript values used by the plugin *)

(** [x || y] and [if (x)] on strings: the empty string is the only falsy
    string. *)
Definition truthy (s : string) : bool :=
  match s with
  | EmptyString => false
  | String _ _ => true
  end.

(** An optional parameter ([url?: string]) is [None] when omitted. *)
Definition js_or (url : option string) (dflt : string) : string :=
  match url with
  | Some u => if truthy u then u else dflt
  | None => dflt
  end.

(** [x ?? y]: [None] stands for [null] / [undefined]. *)
Definition nullish {A} (x : option A) (dflt : A) : A :=
  match x with
  | Some v => v
  | None => dflt
  end.

(** A JavaScript number as produced by [getFullYear()]: an integer or NaN. *)
Inductive JsNumber : Type :=
| NaN
| Num (z : Z).

(** Conversion performed by a template literal [`${v}`]. *)
Definition string_of_number (n : JsNumber) : string :=
  match n with
  | NaN => "NaN"
  | Num z => NilZero.string_of_int (Z.to_int z)
  end.

Definition string_of_nullable (v : option string) : string :=
  match v with
  | Some s => s
  | None => "null"
  end.

(** [String.prototype.toLowerCase] on the ASCII range.  No character
    outside that range lower-cases to an ASCII letter of the word compared
    with at line 161, so the other code units are left as they are. *)
Definition lower_ascii (c : ascii) : ascii :=
  let n := nat_of_ascii c in
  if (65 <=? n)%nat && (n <=? 90)%nat then ascii_of_nat (n + 32) else c.

Fixpoint toLowerCase (s : string) : string :=
  match s with
  | EmptyString => EmptyString
  | String c s' => String (lower_ascii c) (toLowerCase s')
  end.

(** ** Path sanitizer (lines 165-168)

    The title goes through a global regular-expression replace whose
    character class lists slash, question mark, less-than, greater-than,
    backslash, colon, star, bar and the double quote; each match becomes an
    underscore. *)

(** Membership in the character class, by character code: 47 slash,
    63 question mark, 60 less-than, 62 greater-than, 92 backslash, 58 colon,
    42 star, 124 bar, 34 double quote. *)
Definition illegal (c : ascii) : bool :=
  match c with
  | "/" | "?" | "<" | ">" | "\" | ":" | "*" | "|" | "034" => true
  | _ => false
  end%char.

Definition replace_char (c : ascii) : ascii :=
  if illegal c then "_"%char else c.

(** A global single-character replace keeps the length and rewrites every
    matching position. *)
Fixpoint sanitize (title : string) : string :=
  match title with
  | EmptyString => EmptyString
  | String c rest => String (replace_char c) (sanitize rest)
  end.

(** ** Entry records (the objects built at lines 94-105) *)

Record Show : Type := mkShow {
  title : string;
  link : string;
  pubDate : string;
  description : string;
  category : string;
  poster : option string;   (* [getAttribute] may return null *)
  keywords : string;
  rating : string;
  guid : string;
  year : JsNumber
}.

(** ** Entry classifier (lines 160-163) *)

Inductive Kind : Type := Movie | Series.

Definition classify (show : Show) : Kind :=
  if String.eqb (toLowerCase (category show)) "movie" then Movie else Series.

Definition targetFolderPath (show : Show)
    (moviesFolderPath showsFolderPath : string) : string :=
  match classify show with
  | Movie => moviesFolderPath
  | Series => showsFolderPath
  end.

(** ** The DOM as the plugin queries it

    [DOMParser.parseFromString(text, application/xml)] builds a tree of
    elements and text nodes.  Names are the local names of the elements: a
    type selector is compared with the local name. *)

#[local] Set Warnings "-register-all,-clear-no-such-hyp".

Inductive Node : Type :=
| Text (data : string)
| Element (localName : string) (attributes : list (string * string))
    (childNodes : list Node).

Record Document : Type := mkDocument { documentElement : Node }.

(** [node.textContent]: the concatenated data of the text descendants. *)
Fixpoint textContent (n : Node) : string :=
  match n with
  | Text data => data
  | Element _ _ kids => String.concat EmptyString (List.map textContent kids)
  end.

(** The node followed by its descendants, in tree order. *)
Fixpoint inclusiveDescendants (n : Node) : list Node :=
  match n with
  | Text _ => [n]
  | Element _ _ kids => n :: List.flat_map inclusiveDescendants kids
  end.

Definition descendants (n : Node) : list Node :=
  match n with
  | Text _ => []
  | Element _ _ kids => List.flat_map inclusiveDescendants kids
  end.

Fixpoint lookupAttribute (name : string) (attrs : list (string * string))
    : option string :=
  match attrs with
  | [] => None
  | (k, v) :: rest =>
      if String.eqb k name then Some v else lookupAttribute name rest
  end.

(** [element.getAttribute(name)]: null when the attribute is absent. *)
Definition getAttribute (name : string) (n : Node) : option string :=
  match n with
  | Text _ => None
  | Element _ attrs _ => lookupAttribute name attrs
  end.

(** A compound selector: a type selector with an optional attribute test;
    a selector list is a comma-separated group of them. *)
Record Compound : Type := mkCompound {
  sel_type : string;
  sel_attr : option (string * string)
}.

Definition Selector : Type := list Compound.

Definition matchesCompound (n : Node) (c : Compound) : bool :=
  match n with
  | Text _ => false
  | Element name attrs _ =>
      String.eqb name (sel_type c) &&
      match sel_attr c with
      | None => true
      | Some (k, v) =>
          match lookupAttribute k attrs with
          | Some v' => String.eqb v' v
          | None => false
          end
      end
  end.

Definition matchesSelector (sel : Selector) (n : Node) : bool :=
  existsb (matchesCompound n) sel.

(** [element.querySelectorAll] / [element.querySelector]. *)
Definition querySelectorAll (sel : Selector) (n : Node) : list Node :=
  List.filter (matchesSelector sel) (descendants n).

Definition querySelector (sel : Selector) (n : Node) : option Node :=
  head (querySelectorAll sel n).

(** [document.querySelectorAll] / [document.querySelector]: the document
    element itself is a candidate. *)
Definition docQuerySelectorAll (sel : Selector) (doc : Document) : list Node :=
  List.filter (matchesSelector sel) (inclusiveDescendants (documentElement doc)).

Definition docQuerySelector (sel : Selector) (doc : Document) : option Node :=
  head (docQuerySelectorAll sel doc).

Definition tag (name : string) : Selector := [mkCompound name None].

(** The selectors that occur in [checkFeed]. *)
Definition sel_item : Selector := tag "item".
Definition sel_thumbnail : Selector :=
  [mkCompound "media:thumbnail" None; mkCompound "thumbnail" None].
Definition sel_keywords : Selector := tag "media:keywords".
Definition sel_rating : Selector := tag "media:rating".
Definition sel_next : Selector := [mkCompound "link" (Some ("rel", "next"))].

(** ** Host operations, vault and run state *)

(** The asynchronous host calls a run issues; each may reject. *)
Inductive Op : Type :=
| OpFetch (url : string)                   (* fetch(url) *)
| OpText (url : string)                    (* response.text() *)
| OpExists (path : string)                 (* vault.adapter.exists(path) *)
| OpCreateFolder (path : string)           (* vault.createFolder(path) *)
| OpCreate (path : string) (data : string) (* vault.create(path, data) *)
| OpModify (path : string) (data : string) (* vault.modify(file, data) *).

(** The error taxonomy of the specification.  The host calls raise the
    network and storage errors; nothing in the plugin raises [ParseError]. *)
Inductive Exn : Type :=
| NetworkError (op : Op)
| ParseError (markup : string)
| StorageError (op : Op).

(** Handles returned by [getAbstractFileByPath]. *)
Inductive TAbstractFile : Type :=
| TFile (path : string)
| TFolder (path : string).

(** The vault: a folder namespace and a path-indexed file store. *)
Record Vault : Type := mkVault {
  folders : gset string;
  files : gmap string string
}.

(** What the run prints. *)
Inductive Console : Type :=
| Log_itemCount (n : nat)      (* line 60 *)
| Log_nextUrl (url : string)   (* line 116 *)
| Error_feed (e : Exn)         (* line 121 *)
| Error_watchlist (e : Exn)    (* line 196 *).

(** Run state: the vault, the console (latest line first) and the host
    calls issued so far (latest first). *)
Record State : Type := mkState {
  vault : Vault;
  console : list Console;
  history : list Op
}.

Record PlexWatchlistSettings : Type := mkSettings {
  feedUrl : string;
  folderPath : string
}.

Definition DEFAULT_SETTINGS : PlexWatchlistSettings :=
  {| feedUrl := EmptyString; folderPath := EmptyString |}.

(** The platform the plugin runs on.  [faulty h op] tells whether host call
    [op], issued after the calls [h], rejects: every failure pattern of the
    network and of the storage is an instance.  [parseFromString] is total,
    as the DOM parser is: markup that is not well-formed XML comes back as a
    document that carries a parsererror element, never as an exception. *)
Class Host : Type := {
  normalizePath : string -> string;         (* obsidian *)
  getFullYear : string -> JsNumber;         (* new Date(s).getFullYear() *)
  parseFromString : string -> Document;     (* DOMParser, application/xml *)
  body : string -> string;                  (* the markup served at a URL *)
  faulty : list Op -> Op -> bool
}.

(** ** Awaited computations

    An awaited call settles with a value, rejects with an exception, or is
    still pending when the recursion budget of the model is used up.  State
    changes made before a rejection persist. *)

Inductive Outcome (A : Type) : Type :=
| Ret (a : A)
| Throw (e : Exn)
| Pending.

Arguments Ret {A} a.
Arguments Throw {A} e.
Arguments Pending {A}.

Definition M (A : Type) : Type := State -> Outcome A * State.

Definition ret {A} (a : A) : M A := fun st => (Ret a, st).

Definition throw {A} (e : Exn) : M A := fun st => (Throw e, st).

Definition pending {A} : M A := fun st => (Pending, st).

Definition bind {A B} (m : M A) (k : A -> M B) : M B := fun st =>
  match m st with
  | (Ret a, st') => k a st'
  | (Throw e, st') => (Throw e, st')
  | (Pending, st') => (Pending, st')
  end.

Declare Scope run_scope.
Delimit Scope run_scope with run.
Notation "x <- m ;; k" := (bind m (fun x => k))
  (at level 100, m at next level, right associativity) : run_scope.
Notation "m ;; k" := (bind m (fun _ => k))
  (at level 100, right associativity) : run_scope.
Local Open Scope run_scope.

(** [try { body } catch (error) { handler(error) }]. *)
Definition try_catch {A} (body : M A) (handler : Exn -> M A) : M A := fun st =>
  match body st with
  | (Throw e, st') => handler e st'
  | other => other
  end.

(** [Promise.all([p, q])]: both calls are issued; the first rejection wins. *)
Definition promise_all2 {A B} (p : M A) (q : M B) : M (A * B) := fun st =>
  match p st with
  | (ra, st1) =>
      match q st1 with
      | (rb, st2) =>
          match ra, rb with
          | Throw e, _ => (Throw e, st2)
          | Ret _, Throw e => (Throw e, st2)
          | Ret a, Ret b => (Ret (a, b), st2)
          | _, _ => (Pending, st2)
          end
      end
  end.

Fixpoint for_each {A} (f : A -> M unit) (l : list A) : M unit :=
  match l with
  | [] => ret tt
  | x :: rest => f x ;; for_each f rest
  end.

Definition printed (line : Console) (st : State) : State :=
  {| vault := vault st; console := line :: console st; history := history st |}.

Definition print (line : Console) : M unit := fun st => (Ret tt, printed line st).

Definition getVault : M Vault := fun st => (Ret (vault st), st).

Definition withVault (v : Vault) (st : State) : State :=
  {| vault := v; console := console st; history := history st |}.

Definition setVault (v : Vault) : M unit := fun st => (Ret tt, withVault v st).

Definition issue (op : Op) (st : State) : State :=
  {| vault := vault st; console := console st; history := op :: history st |}.

(** [adapter.exists]: a path exists when it names a folder or a file. *)
Definition vault_exists (v : Vault) (path : string) : bool :=
  bool_decide (path ∈ folders v) || bool_decide (is_Some (files v !! path)).

Definition vault_lookup (v : Vault) (path : string) : option TAbstractFile :=
  if bool_decide (is_Some (files v !! path)) then Some (TFile path)
  else if bool_decide (path ∈ folders v) then Some (TFolder path)
  else None.

Definition vault_mkdir (path : string) (v : Vault) : Vault :=
  {| folders := {[path]} ∪ folders v; files := files v |}.

Definition vault_write (path data : string) (v : Vault) : Vault :=
  {| folders := folders v; files := <[path := data]> (files v) |}.

Section Plugin.
Context `{Host}.

(** Issue host call [op]: it is recorded and rejects when the host says so. *)
Definition attempt (op : Op) (as_error : Op -> Exn) : M unit := fun st =>
  if faulty (history st) op then (Throw (as_error op), issue op st)
  else (Ret tt, issue op st).

(** [await fetch(url)]: the response is identified by its URL. *)
Definition fetch (url : string) : M string :=
  attempt (OpFetch url) NetworkError ;; ret url.

(** [await response.text()]. *)
Definition response_text (response : string) : M string :=
  attempt (OpText response) NetworkError ;; ret (body response).

Definition adapter_exists (path : string) : M bool :=
  attempt (OpExists path) StorageError ;;
  v <- getVault ;; ret (vault_exists v path).

(** [vault.createFolder]: rejects when the path is taken. *)
Definition createFolder (path : string) : M unit :=
  attempt (OpCreateFolder path) StorageError ;;
  v <- getVault ;;
  if vault_exists v path then throw (StorageError (OpCreateFolder path))
  else setVault (vault_mkdir path v).

(** [vault.getAbstractFileByPath]: synchronous, null when nothing is there. *)
Definition getAbstractFileByPath (path : string) : M (option TAbstractFile) :=
  v <- getVault ;; ret (vault_lookup v path).

(** [vault.create]: rejects when the path is taken. *)
Definition create (path data : string) : M TAbstractFile :=
  attempt (OpCreate path data) StorageError ;;
  v <- getVault ;;
  if vault_exists v path then throw (StorageError (OpCreate path data))
  else (setVault (vault_write path data v) ;; ret (TFile path)).

(** [vault.modify]: replaces the whole content; a folder cannot be written. *)
Definition modify (file : TAbstractFile) (data : string) : M unit :=
  match file with
  | TFile path =>
      attempt (OpModify path data) StorageError ;;
      v <- getVault ;; setVault (vault_write path data v)
  | TFolder path =>
      attempt (OpModify path data) StorageError ;;
      throw (StorageError (OpModify path data))
  end.

(** *** [checkFeed], lines 62-107: one entry per item element *)

Definition textOf (sel : Selector) (item : Node) : string :=
  nullish (textContent <$> querySelector sel item) EmptyString.

Definition parseItem (item : Node) : Show :=
  let title := textOf (tag "title") item in
  let link := textOf (tag "link") item in
  let pubDate := textOf (tag "pubDate") item in
  let description := textOf (tag "description") item in
  let category := textOf (tag "category") item in
  let thumbnail := querySelector sel_thumbnail item in
  let poster :=
    match thumbnail with
    | Some thumbnail => getAttribute "url" thumbnail
    | None => Some EmptyString
    end in
  let keywords := textOf sel_keywords item in
  let rating := textOf sel_rating item in
  let guid := textOf (tag "guid") item in
  let year := getFullYear pubDate in
  mkShow title link pubDate description category poster keywords rating
    guid year.

(** *** [updateWatchlist], lines 164-169 and 178-189 *)

Definition notePath (moviesFolderPath showsFolderPath : string) (show : Show)
    : string :=
  normalizePath
    (targetFolderPath show moviesFolderPath showsFolderPath +:+ "/" +:+
     sanitize (title show) +:+ ".md").

Definition noteContent (show : Show) : string :=
  "---" +:+ LF +:+
  "title: " +:+ title show +:+ LF +:+
  "link: " +:+ link show +:+ LF +:+
  "pubDate: " +:+ pubDate show +:+ LF +:+
  "description: " +:+ description show +:+ LF +:+
  "category: " +:+ category show +:+ LF +:+
  "poster: " +:+ string_of_nullable (poster show) +:+ LF +:+
  "keywords: " +:+ keywords show +:+ LF +:+
  "rating: " +:+ rating show +:+ LF +:+
  "guid: " +:+ guid show +:+ LF +:+
  "year: " +:+ string_of_number (year show) +:+ LF +:+
  "---" +:+ LF.

(** One iteration of the loop at lines 158-192. *)
Definition writeNote (moviesFolderPath showsFolderPath : string)
    (show : Show) : M unit :=
  let filePath := notePath moviesFolderPath showsFolderPath show in
  found <- getAbstractFileByPath filePath ;;
  file <- match found with
          | Some file => ret file
          | None => create filePath EmptyString
          end ;;
  modify file (noteContent show).

(** *** [updateWatchFile], lines 200-224 *)

Definition watchFileContent : string :=
  "---" +:+ LF +:+
  "cssclasses: cards, cards-cover, cards-2-3, table-max" +:+ LF +:+
  "---" +:+ LF +:+ LF +:+
  "```dataview" +:+ LF +:+
  "table without id" +:+ LF +:+
  TAB +:+ "(" +:+ DQ +:+ "![](" +:+ DQ +:+ " + poster + " +:+ DQ +:+ ")"
    +:+ DQ +:+ ") as Poster," +:+ LF +:+
  TAB +:+ "file.link as Title," +:+ LF +:+
  TAB +:+ "string(year) as Year," +:+ LF +:+
  TAB +:+ "pubDate as " +:+ DQ +:+ "Date Added" +:+ DQ +:+ LF +:+
  "from " +:+ DQ +:+ "plex/movies" +:+ DQ +:+ LF +:+
  "sort pubDate desc, title asc" +:+ LF +:+
  "```" +:+ LF.

Definition watchFilePath (folderPath : string) : string :=
  normalizePath (folderPath +:+ "/watch.md").

Definition updateWatchFile (folderPath : string) : M unit :=
  found <- getAbstractFileByPath (watchFilePath folderPath) ;;
  watchFile <- match found with
               | Some file => ret file
               | None => create (watchFilePath folderPath) EmptyString
               end ;;
  modify watchFile watchFileContent.

(** *** [updateWatchlist], lines 126-198 *)

Definition showsFolder (folderPath : string) : string :=
  normalizePath (folderPath +:+ "/shows").

Definition moviesFolder (folderPath : string) : string :=
  normalizePath (folderPath +:+ "/movies").

(** The block guarded by [try], lines 142-194. *)
Definition updateWatchlist_try (shows : list Show) (folderPath : string)
    : M unit :=
  let showsFolderPath := showsFolder folderPath in
  let moviesFolderPath := moviesFolder folderPath in
  foldersExist <- promise_all2 (adapter_exists showsFolderPath)
                               (adapter_exists moviesFolderPath) ;;
  (if negb (fst foldersExist) then createFolder showsFolderPath else ret tt) ;;
  (if negb (snd foldersExist) then createFolder moviesFolderPath else ret tt) ;;
  for_each (writeNote moviesFolderPath showsFolderPath) shows ;;
  updateWatchFile folderPath.

Definition updateWatchlist (shows : list Show) (folderPath : string)
    : M unit :=
  try_catch (updateWatchlist_try shows folderPath)
            (fun error => print (Error_watchlist error)).

(** *** [checkFeed], lines 49-124 *)

Section CheckFeed.
Variable settings : PlexWatchlistSettings.

(** The block guarded by [try], lines 55-119; [recur] is the recursive
    call of line 117. *)
Definition checkFeed_try (recur : string -> M unit) (currentUrl : string)
    : M unit :=
  response <- fetch currentUrl ;;
  text <- response_text response ;;
  let doc := parseFromString text in
  let items := docQuerySelectorAll sel_item doc in
  print (Log_itemCount (length items)) ;;
  let shows := List.map parseItem items in
  updateWatchlist shows (folderPath settings) ;;
  match docQuerySelector sel_next doc with
  | Some nextLink =>
      match getAttribute "href" nextLink with
      | Some nextUrl =>
          if truthy nextUrl
          then (print (Log_nextUrl nextUrl) ;; recur nextUrl)
          else ret tt
      | None => ret tt
      end
  | None => ret tt
  end.

(** [fuel] bounds the number of further pages the recursion may follow;
    a call that would exceed it stays pending. *)
Fixpoint checkFeed (fuel : nat) (url : option string) : M unit :=
  let currentUrl := js_or url (feedUrl settings) in
  if truthy currentUrl then
    try_catch
      (checkFeed_try
         (fun nextUrl =>
            match fuel with
            | O => pending
            | S fuel' => checkFeed fuel' (Some nextUrl)
            end)
         currentUrl)
      (fun error => print (Error_feed error))
  else ret tt.
End CheckFeed.
End Plugin.

(** ** The writes of a successful synchronisation *)

Section Writes.
Context `{Host}.

(** Get the file at [path], creating it empty when nothing is there, then
    replace its content: the shape shared by lines 171-191 and 202-223. *)
Definition upsert (path data : string) : M unit :=
  found <- getAbstractFileByPath path ;;
  file <- match found with
          | Some file => ret file
          | None => create path EmptyString
          end ;;
  modify file data.

(** The content write an entry stands for. *)
Definition noteWrite (moviesFolderPath showsFolderPath : string) (show : Show)
    : string * string :=
  (notePath moviesFolderPath showsFolderPath show, noteContent show).

(** The content writes of one call of [updateWatchlist], in order: one per
    entry, then the index note. *)
Definition syncWrites (shows : list Show) (folderPath : string)
    : list (string * string) :=
  (List.map (noteWrite (moviesFolder folderPath) (showsFolder folderPath)) shows
   ++ [(watchFilePath folderPath, watchFileContent)])%list.

(** The folders [updateWatchlist] has to create in vault [v]. *)
Definition missingFolders (v : Vault) (folderPath : string) : gset string :=
  (if vault_exists v (moviesFolder folderPath) then ∅
   else {[moviesFolder folderPath]}) ∪
  (if vault_exists v (showsFolder folderPath) then ∅
   else {[showsFolder folderPath]}).

(** One page of a run: fetch, parse, print the count, flush to the vault. *)
Definition entriesOf (markup : string) : list Show :=
  List.map parseItem (docQuerySelectorAll sel_item (parseFromString markup)).

Definition syncPage (settings : PlexWatchlistSettings) (url : string) : M unit :=
  response <- fetch url ;;
  text <- response_text response ;;
  print (Log_itemCount (length (docQuerySelectorAll sel_item (parseFromString text)))) ;;
  updateWatchlist (entriesOf text) (folderPath settings).

(** The recursive call of line 117 as [checkFeed] passes it to its guarded
    block. *)
Definition followPage (settings : PlexWatchlistSettings) (fuel : nat)
    : string -> M unit :=
  fun nextUrl =>
    match fuel with
    | O => pending
    | S fuel' => checkFeed settings fuel' (Some nextUrl)
    end.

(** The next-page URL the run follows from a page, if any (lines 112-118). *)
Definition nextUrlOf (markup : string) : option string :=
  match docQuerySelector sel_next (parseFromString markup) with
  | Some nextLink =>
      match getAttribute "href" nextLink with
      | Some nextUrl => if truthy nextUrl then Some nextUrl else None
      | None => None
      end
  | None => None
  end.

(** The chain of next-page links starting at [url] ends within [n] further
    pages. *)
Fixpoint chainEnds (n : nat) (url : string) : bool :=
  match nextUrlOf (body url) with
  | None => true
  | Some next =>
      match n with
      | O => false
      | S n' => chainEnds n' next
      end
  end.
End Writes.

(** ** Views of a run used in the statements *)

(** The lines written by [console.error] (lines 121 and 196). *)
Definition isError (line : Console) : bool :=
  match line with
  | Error_feed _ | Error_watchlist _ => true
  | _ => false
  end.

(** URLs fetched, in the order of the calls. *)
Definition fetched (h : list Op) : list string :=
  omap (fun op => match op with OpFetch u => Some u | _ => None end) (rev h).

(** Content writes ([vault.modify]), in the order of the calls. *)
Definition modified (h : list Op) : list (string * string) :=
  omap (fun op => match op with OpModify p d => Some (p, d) | _ => None end)
       (rev h).

(** Calls that bring a new path into existence. *)
Definition isCreation (op : Op) : bool :=
  match op with
  | OpCreate _ _ | OpCreateFolder _ => true
  | _ => false
  end.

(** Nothing the vault holds goes away: folders and file paths persist. *)
Definition vaultGrows (v v' : Vault) : Prop :=
  folders v ⊆ folders v' /\ dom (files v) ⊆ dom (files v').

(** Relations a block may keep between its start and end states. *)
Definition keepsVault (st st' : State) : Prop := vaultGrows (vault st) (vault st').
Definition keepsConsole (st st' : State) : Prop := console st' = console st.
Definition keepsFiles (st st' : State) : Prop :=
  files (vault st') = files (vault st).
Definition keepsFetched (st st' : State) : Prop :=
  fetched (history st') = fetched (history st).

(** A computation keeps a relation between the state it starts from and the
    state it leaves, whatever its outcome. *)
Definition preserves (R : State -> State -> Prop) {A} (m : M A) : Prop :=
  forall st, R st (snd (m st)).

(** A computation that is never left pending. *)
Definition settles {A} (m : M A) : Prop :=
  forall st, fst (m st) <> Pending.

(** A sequence of whole-file writes applied to a file store. *)
Definition applyWrites (ws : list (string * string)) (fs : gmap string string)
    : gmap string string :=
  foldl (fun acc w => <[fst w := snd w]> acc) fs ws.

(** The content the last write to [path] in [ws] leaves there, if any. *)
Fixpoint lastWrite (ws : list (string * string)) (path : string)
    : option string :=
  match ws with
  | [] => None
  | (q, d) :: rest =>
      match lastWrite rest path with
      | Some d' => Some d'
      | None => if String.eqb q path then Some d else None
      end
  end.

(** Substring test, for statements about what a note contains. *)
Fixpoint isPrefix (p s : string) : bool :=
  match p, s with
  | EmptyString, _ => true
  | String a p', String b s' => Ascii.eqb a b && isPrefix p' s'
  | String _ _, EmptyString => false
  end.

Fixpoint contains (s sub : string) : bool :=
  isPrefix sub s ||
  match s with
  | EmptyString => false
  | String _ s' => contains s' sub
  end.

(** Number of error lines on a console. *)
Definition errorCount (c : list Console) : nat :=
  length (List.filter isError c).

(** The document [DOMParser] returns for markup that is not well-formed XML
    carries a [parsererror] element; the parser itself does not throw. *)
Definition isParserError (doc : Document) : bool :=
  match docQuerySelector (tag "parsererror") doc with
  | Some _ => true
  | None => false
  end.

(** The spellings of [movie] that differ only in letter case. *)
Definition eitherCase (lower upper c : ascii) : Prop := c = lower \/ c = upper.

Definition movieSpelling (s : string) : Prop :=
  exists c1 c2 c3 c4 c5,
    s = String c1 (String c2 (String c3 (String c4 (String c5 EmptyString)))) /\
    eitherCase "m" "M" c1 /\ eitherCase "o" "O" c2 /\ eitherCase "v" "V" c3 /\
    eitherCase "i" "I" c4 /\ eitherCase "e" "E" c5.

(** ** A concrete host, for running the plugin on sample feeds *)

Module Sample.

Definition isSlash (c : ascii) : bool :=
  match c with
  | "/" | "\" => true
  | _ => false
  end%char.

Fixpoint squeeze (afterSlash : bool) (s : string) : string :=
  match s with
  | EmptyString => EmptyString
  | String c rest =>
      if isSlash c
      then if afterSlash then squeeze true rest
           else String "/" (squeeze true rest)
      else String c (squeeze false rest)
  end.

Fixpoint dropTrailingSlash (s : string) : string :=
  match s with
  | EmptyString => EmptyString
  | String c rest =>
      match rest with
      | EmptyString => if isSlash c then EmptyString else s
      | String _ _ => String c (dropTrailingSlash rest)
      end
  end.

(** Path normalisation in the manner of the vault: separators unified and
    squeezed, no leading or trailing separator, the root written as a
    single slash. *)
Definition cleanPath (s : string) : string :=
  let p := dropTrailingSlash (squeeze true s) in
  if truthy p then p else "/".

Definition table {A} (rows : list (string * A)) (dflt : A) (key : string) : A :=
  match List.find (fun row => String.eqb (fst row) key) rows with
  | Some row => snd row
  | None => dflt
  end.

Definition leaf (name text : string) : Node := Element name [] [Text text].

Definition item (title category pubDate : string) (extra : list Node) : Node :=
  Element "item" []
    ([leaf "title" title; leaf "category" category; leaf "pubDate" pubDate]
     ++ extra).

Definition rss (children : list Node) : Document :=
  mkDocument (Element "rss" [] [Element "channel" [] children]).

Definition nextLink (href : string) : Node :=
  Element "link" [("rel", "next"); ("href", href)] [].

Definition thumbnail (url : string) : Node :=
  Element "thumbnail" [("url", url)] [].

(** Serialisation of a tree back to markup (attribute values in single
    quotes); the sample texts need no escaping. *)
Definition attributeText (kv : string * string) : string :=
  " " +:+ fst kv +:+ "='" +:+ snd kv +:+ "'".

Fixpoint outerXML (n : Node) : string :=
  match n with
  | Text data => data
  | Element name attrs kids =>
      "<" +:+ name +:+ String.concat EmptyString (List.map attributeText attrs)
      +:+ ">" +:+ String.concat EmptyString (List.map outerXML kids)
      +:+ "</" +:+ name +:+ ">"
  end.

Definition url1 : string := "https://rss.plex.tv/watchlist".
Definition url2 : string := "https://rss.plex.tv/watchlist?page=2".
Definition url3 : string := "https://rss.plex.tv/watchlist?page=3".
Definition urlBroken : string := "https://rss.plex.tv/unavailable".
Definition urlNoPoster : string := "https://rss.plex.tv/noposter".

Definition date1979 : string := "Fri, 25 May 1979 12:00:00 GMT".
Definition date2021 : string := "Fri, 22 Oct 2021 12:00:00 GMT".
Definition date2022 : string := "Fri, 18 Feb 2022 12:00:00 GMT".

Definition dune : Node :=
  item "Dune: Part One" "movie" date2021
       [thumbnail "https://img.plex.tv/dune.jpg"].
Definition severance : Node := item "Severance" "show" date2022 [].
Definition alien : Node := item "Alien" "Movie" date1979 [].
Definition whatIf : Node := item "What If...?" "show" date2021 [].

(** An item whose thumbnail element carries no url attribute. *)
Definition heat : Node :=
  item "Heat" "movie" date2021 [Element "thumbnail" [] []].

Definition page1 : Document :=
  rss [leaf "title" "Watchlist"; nextLink url2; dune; severance].
Definition page2 : Document := rss [nextLink url3; alien].
Definition page3 : Document := rss [whatIf].
Definition pageNoPoster : Document := rss [heat].

Definition markup1 : string := outerXML (documentElement page1).
Definition markup2 : string := outerXML (documentElement page2).
Definition markup3 : string := outerXML (documentElement page3).
Definition markupNoPoster : string := outerXML (documentElement pageNoPoster).

(** A body that is not XML at all, and the document the parser of the
    host application returns for it: an error report, no feed content. *)
Definition markupBroken : string := "503 Service Unavailable".

Definition parserErrorDocument : Document :=
  mkDocument
    (Element "html" []
       [Element "body" []
          [Element "parsererror" []
             [leaf "h3" "This page contains the following errors:";
              leaf "div" "error on line 1 at column 1: Start tag expected";
              leaf "h3" "Below is a rendering of the page up to the first error."]]]).

Definition bodies : string -> string :=
  table [ (url1, markup1); (url2, markup2); (url3, markup3);
          (urlNoPoster, markupNoPoster); (urlBroken, markupBroken) ]
        EmptyString.

Definition parse : string -> Document :=
  table [ (markup1, page1); (markup2, page2); (markup3, page3);
          (markupNoPoster, pageNoPoster) ]
        parserErrorDocument.

Definition fullYear : string -> JsNumber :=
  table [(date1979, Num 1979); (date2021, Num 2021); (date2022, Num 2022)]
        NaN.

Definition host (faults : list Op -> Op -> bool) : Host :=
  {| normalizePath := cleanPath;
     getFullYear := fullYear;
     parseFromString := parse;
     body := bodies;
     faulty := faults |}.

Definition reliable : Host := host (fun _ _ => false).

(** The host on which fetching the second page rejects. *)
Definition page2Down : Host :=
  host (fun _ op => match op with
                    | OpFetch u => String.eqb u url2
                    | _ => false
                    end).

Definition emptyVault : Vault := {| folders := ∅; files := ∅ |}.

Definition fresh : State :=
  {| vault := emptyVault; console := []; history := [] |}.

Definition plex (url : string) : PlexWatchlistSettings :=
  {| feedUrl := url; folderPath := "plex" |}.

End Sample.

(** ** Plugin life cycle and settings tab (lines 23-47, 226-236, 247-288)

    The plugin instance holds its settings, a plain object, and the handle
    of its timer.  Around it the application keeps the plugin's data file,
    the active timers, the registered setting tabs and the notices shown. *)

(** The asynchronous calls on the plugin's data file; each may reject. *)
Inductive PluginCall : Type :=
| CallLoadData                                 (* this.loadData() *)
| CallSaveData (data : gmap string string)     (* this.saveData(data) *).

Inductive Rejection : Type :=
| RunError (e : Exn)
| DataError (call : PluginCall).

(** [this]: the fields of [PlexWatchlistPlugin] (lines 24-25). *)
Record Plugin : Type := mkPlugin {
  settings : gmap string string;
  interval : option nat              (* undefined until a timer is started *)
}.

(** Period of the timer of line 46, in milliseconds. *)
Definition CHECK_PERIOD : Z := 3600000.

Record App : Type := mkApp {
  plugin : Plugin;
  dataFile : option (gmap string string);  (* null when nothing was saved *)
  intervals : gmap nat Z;                  (* active timers: handle, period *)
  nextInterval : nat;                      (* handle the next timer gets *)
  settingTabs : nat;                       (* tabs added by addSettingTab *)
  notices : list string;                   (* latest first *)
  messages : list string;                  (* console.log of line 41 *)
  pluginCalls : list PluginCall;           (* latest first *)
  run : State
}.

(** The platform of [Host], with the data file of the plugin:
    [dataFaulty h call] tells whether [call], issued after [h], rejects. *)
Class PluginHost : Type := {
  pluginHost_host :: Host;
  dataFaulty : list PluginCall -> PluginCall -> bool
}.

(** ** Awaited computations of the plugin *)

Inductive Settled (A : Type) : Type :=
| Fulfilled (a : A)
| Rejected (r : Rejection)
| Unsettled.

Arguments Fulfilled {A} a.
Arguments Rejected {A} r.
Arguments Unsettled {A}.

Definition Task (A : Type) : Type := App -> Settled A * App.

Definition fulfil {A} (a : A) : Task A := fun app => (Fulfilled a, app).

Definition andThen {A B} (t : Task A) (k : A -> Task B) : Task B := fun app =>
  match t app with
  | (Fulfilled a, app') => k a app'
  | (Rejected r, app') => (Rejected r, app')
  | (Unsettled, app') => (Unsettled, app')
  end.

Declare Scope task_scope.
Delimit Scope task_scope with task.
Notation "x <- t ;; k" := (andThen t (fun x => k))
  (at level 100, t at next level, right associativity) : task_scope.
Notation "t ;; k" := (andThen t (fun _ => k))
  (at level 100, right associativity) : task_scope.

Definition withRun (st : State) (app : App) : App :=
  {| plugin := plugin app; dataFile := dataFile app; intervals := intervals app;
     nextInterval := nextInterval app; settingTabs := settingTabs app;
     notices := notices app; messages := messages app;
     pluginCalls := pluginCalls app; run := st |}.

Definition withPlugin (p : Plugin) (app : App) : App :=
  {| plugin := p; dataFile := dataFile app; intervals := intervals app;
     nextInterval := nextInterval app; settingTabs := settingTabs app;
     notices := notices app; messages := messages app;
     pluginCalls := pluginCalls app; run := run app |}.

Definition withDataFile (d : option (gmap string string)) (app : App) : App :=
  {| plugin := plugin app; dataFile := d; intervals := intervals app;
     nextInterval := nextInterval app; settingTabs := settingTabs app;
     notices := notices app; messages := messages app;
     pluginCalls := pluginCalls app; run := run app |}.

Definition withIntervals (t : gmap nat Z) (next : nat) (app : App) : App :=
  {| plugin := plugin app; dataFile := dataFile app; intervals := t;
     nextInterval := next; settingTabs := settingTabs app;
     notices := notices app; messages := messages app;
     pluginCalls := pluginCalls app; run := run app |}.

Definition called (call : PluginCall) (app : App) : App :=
  {| plugin := plugin app; dataFile := dataFile app; intervals := intervals app;
     nextInterval := nextInterval app; settingTabs := settingTabs app;
     notices := notices app; messages := messages app;
     pluginCalls := call :: pluginCalls app; run := run app |}.

Definition noticed (text : string) (app : App) : App :=
  {| plugin := plugin app; dataFile := dataFile app; intervals := intervals app;
     nextInterval := nextInterval app; settingTabs := settingTabs app;
     notices := text :: notices app; messages := messages app;
     pluginCalls := pluginCalls app; run := run app |}.

Definition logged (text : string) (app : App) : App :=
  {| plugin := plugin app; dataFile := dataFile app; intervals := intervals app;
     nextInterval := nextInterval app; settingTabs := settingTabs app;
     notices := notices app; messages := text :: messages app;
     pluginCalls := pluginCalls app; run := run app |}.

Definition tabAdded (app : App) : App :=
  {| plugin := plugin app; dataFile := dataFile app; intervals := intervals app;
     nextInterval := nextInterval app; settingTabs := S (settingTabs app);
     notices := notices app; messages := messages app;
     pluginCalls := pluginCalls app; run := run app |}.

(** A sync run as a step of the plugin. *)
Definition liftRun {A} (m : M A) : Task A := fun app =>
  match m (run app) with
  | (Ret a, st) => (Fulfilled a, withRun st app)
  | (Throw e, st) => (Rejected (RunError e), withRun st app)
  | (Pending, st) => (Unsettled, withRun st app)
  end.

(** A call whose promise is not awaited: the caller goes on whatever the
    outcome is.  The model lets the call run before the caller continues. *)
Definition detached {A} (t : Task A) : Task unit := fun app =>
  (Fulfilled tt, snd (t app)).

(** [Object.assign(target, ...sources)]: own properties are copied, later
    sources win, a null source is skipped. *)
Definition Object_assign (target : gmap string string)
    (sources : list (option (gmap string string))) : gmap string string :=
  foldl (fun acc source =>
           match source with
           | Some o => o ∪ acc
           | None => acc
           end) target sources.

(** A settings record as the object literal of lines 18-21. *)
Definition settingsObject (s : PlexWatchlistSettings) : gmap string string :=
  <["feedUrl" := feedUrl s]> (<["folderPath" := folderPath s]> ∅).

(** The destructuring of line 50.  A missing property reads as undefined:
    for the feed URL that is falsy like the empty string at lines 51-53,
    and the folder path only occurs in template literals, which print
    undefined as the word. *)
Definition readSettings (o : gmap string string) : PlexWatchlistSettings :=
  {| feedUrl := default EmptyString (o !! "feedUrl");
     folderPath := default "undefined" (o !! "folderPath") |}.

Section Chains.
Context `{Host}.

(** The pages a run asks for when it starts at [url] and may follow [n]
    further next links. *)
Fixpoint chainUrls (n : nat) (url : string) : list string :=
  url ::
  match nextUrlOf (body url) with
  | None => []
  | Some next =>
      match n with
      | O => []
      | S n' => chainUrls n' next
      end
  end.
End Chains.

Section Lifecycle.
Context `{PluginHost}.
Local Open Scope task_scope.

Definition request (call : PluginCall) : Task unit := fun app =>
  if dataFaulty (pluginCalls app) call
  then (Rejected (DataError call), called call app)
  else (Fulfilled tt, called call app).

Definition loadData : Task (option (gmap string string)) :=
  request CallLoadData ;; fun app => (Fulfilled (dataFile app), app).

Definition saveData (data : gmap string string) : Task unit :=
  request (CallSaveData data) ;;
  fun app => (Fulfilled tt, withDataFile (Some data) app).

Definition getSettings : Task (gmap string string) := fun app =>
  (Fulfilled (settings (plugin app)), app).

Definition setSettings (o : gmap string string) : Task unit := fun app =>
  (Fulfilled tt, withPlugin (mkPlugin o (interval (plugin app))) app).

(** Lines 226-232. *)
Definition loadSettings : Task unit :=
  data <- loadData ;;
  setSettings (Object_assign ∅ [Some (settingsObject DEFAULT_SETTINGS); data]).

(** Lines 234-236. *)
Definition saveSettings : Task unit :=
  o <- getSettings ;; saveData o.

(** [setInterval(callback, period)]: a new handle.  The callback is always
    that of line 46. *)
Definition setInterval (period : Z) : Task nat := fun app =>
  (Fulfilled (nextInterval app),
   withIntervals (<[nextInterval app := period]> (intervals app))
     (S (nextInterval app)) app).

(** [clearInterval(handle)]: nothing happens for undefined. *)
Definition clearInterval (handle : option nat) : Task unit := fun app =>
  match handle with
  | Some id =>
      (Fulfilled tt, withIntervals (delete id (intervals app)) (nextInterval app) app)
  | None => (Fulfilled tt, app)
  end.

(** [this.checkFeed(url)], reading [this.settings] when it is called. *)
Definition checkFeedTask (fuel : nat) (url : option string) : Task unit :=
  fun app =>
    liftRun (checkFeed (readSettings (settings (plugin app))) fuel url) app.

(** Lines 45-47. *)
Definition startCheckingFeed : Task unit :=
  id <- setInterval CHECK_PERIOD ;;
  fun app =>
    (Fulfilled tt, withPlugin (mkPlugin (settings (plugin app)) (Some id)) app).

(** Lines 27-38. *)
Definition onload (fuel : nat) : Task unit :=
  loadSettings ;;
  (fun app => (Fulfilled tt, tabAdded app)) ;;
  detached (checkFeedTask fuel None) ;;
  startCheckingFeed.

(** Lines 40-43. *)
Definition onunload : Task unit :=
  (fun app => (Fulfilled tt, logged "Unloading Plex Watchlist Plugin" app)) ;;
  fun app => clearInterval (interval (plugin app)) app.

(** The timer with handle [id] comes due: its callback runs when the timer
    is still active. *)
Definition intervalFires (fuel : nat) (id : nat) : Task unit := fun app =>
  match intervals app !! id with
  | Some _ => detached (checkFeedTask fuel None) app
  | None => (Fulfilled tt, app)
  end.

(** The change handlers of the two text fields (lines 260-263, 273-276). *)
Definition onFeedUrlChange (value : string) : Task unit :=
  (o <- getSettings ;; setSettings (<["feedUrl" := value]> o)) ;;
  saveSettings.

Definition onFolderPathChange (value : string) : Task unit :=
  (o <- getSettings ;; setSettings (<["folderPath" := value]> o)) ;;
  saveSettings.

(** The click handler of the Sync Now button (lines 283-286); [Notice] is
    the notice constructor of the application. *)
Definition onSyncNowClick (fuel : nat) : Task unit :=
  checkFeedTask fuel None ;;
  fun app => (Fulfilled tt, noticed "Plex Watchlist synced successfully." app).
End Lifecycle.

(** ** A concrete application, for running the life cycle *)

Module SampleApp.

Definition urlLoop : string := "https://rss.plex.tv/loop".

(** A page whose next link is its own address. *)
Definition pageLoop : Document :=
  Sample.rss [Sample.nextLink urlLoop; Sample.alien].

Definition markupLoop : string := Sample.outerXML (documentElement pageLoop).

(** The sample host with the looping page added. *)
Definition host (faults : list Op -> Op -> bool) : Host :=
  {| normalizePath := Sample.cleanPath;
     getFullYear := Sample.fullYear;
     parseFromString := fun markup =>
       if String.eqb markup markupLoop then pageLoop else Sample.parse markup;
     body := fun url =>
       if String.eqb url urlLoop then markupLoop else Sample.bodies url;
     faulty := faults |}.

Definition reliable : Host := host (fun _ _ => false).

(** The host on which no folder can be created. *)
Definition readOnly : Host :=
  host (fun _ op => match op with
                    | OpCreateFolder _ => true
                    | _ => false
                    end).

Definition pluginHost (h : Host) (faults : list PluginCall -> PluginCall -> bool)
    : PluginHost :=
  {| pluginHost_host := h; dataFaulty := faults |}.

(** The application before the plugin is loaded for the first time. *)
Definition fresh : App :=
  {| plugin := mkPlugin ∅ None; dataFile := None; intervals := ∅;
     nextInterval := 1; settingTabs := 0; notices := []; messages := [];
     pluginCalls := []; run := Sample.fresh |}.

(** The application with settings saved by an earlier session. *)
Definition configured (url : string) : App :=
  {| plugin := mkPlugin ∅ None;
     dataFile := Some (settingsObject (Sample.plex url));
     intervals := ∅; nextInterval := 1; settingTabs := 0; notices := [];
     messages := []; pluginCalls := []; run := Sample.fresh |}.

End SampleApp.

(** ** Views of an interrupted run *)

(** The content write a host call stands for: a [vault.modify] that was
    issued, whether or not it was honoured. *)
Definition writeOf (op : Op) : list (string * string) :=
  match op with
  | OpModify path data => [(path, data)]
  | _ => []
  end.

(** Calls on folders: [adapter.exists] and [vault.createFolder]. *)
Definition folderCall (op : Op) : bool :=
  match op with
  | OpExists _ | OpCreateFolder _ => true
  | _ => false
  end.

(** The host call that interrupts a flush whose content writes [done] were
    carried out and whose next content write is [(path, data)]: a folder
    call (before any write), the creation of the empty file at [path], or
    the write itself. *)
Definition interrupts (op : Op) (done : list (string * string))
    (path data : string) : Prop :=
  match op with
  | OpExists _ | OpCreateFolder _ => done = []
  | OpCreate p d => p = path /\ d = EmptyString
  | OpModify p d => p = path /\ d = data
  | _ => False
  end.

(** No file changes and no content write is issued. *)
Definition keepsWrites (st st' : State) : Prop :=
  keepsFiles st st' /\ modified (history st') = modified (history st).

(** Between two states, host calls were only added to the history, and every
    file either holds what it held or holds the content a [vault.create] or
    [vault.modify] issued in between gave it. *)
Definition changedByWrites (st st' : State) : Prop :=
  exists calls,
    history st' = (calls ++ history st)%list /\
    forall path,
      files (vault st') !! path = files (vault st) !! path \/
      exists data,
        files (vault st') !! path = Some data /\
        (List.In (OpCreate path data) calls \/
         List.In (OpModify path data) calls).

(** A host for an interrupted flush: the note of Severance cannot be
    written. *)
Module SampleFaults.

Definition severanceLocked : Host :=
  Sample.host (fun _ op => match op with
                           | OpModify path _ =>
                               String.eqb path "plex/shows/Severance.md"
                           | _ => false
                           end).

End SampleFaults.

(** * Properties *)

Local Open Scope run_scope.

(** ** Laws of awaited computations *)

Lemma bind_Ret_inv {A B} (m : M A) (k : A -> M B) st b st' :
  bind m k st = (Ret b, st') ->
  exists a st1, m st = (Ret a, st1) /\ k a st1 = (Ret b, st').
Proof.
  unfold bind. destruct (m st) as [[a | e |] st1]; try discriminate.
  intros Hk. eauto.
Qed.

Lemma try_catch_Ret {A} (body : M A) handler st a st' :
  body st = (Ret a, st') -> try_catch body handler st = (Ret a, st').
Proof. unfold try_catch. intros ->. reflexivity. Qed.

Section Preservation.
Context (R : State -> State -> Prop).
Hypothesis R_refl : forall st, R st st.
Hypothesis R_trans : forall a b c, R a b -> R b c -> R a c.

Lemma preserves_ret {A} (a : A) : preserves R (ret a).
Proof. intros st. apply R_refl. Qed.

Lemma preserves_pending {A} : preserves R (@pending A).
Proof. intros st. apply R_refl. Qed.

Lemma preserves_bind {A B} (m : M A) (k : A -> M B) :
  preserves R m -> (forall a, preserves R (k a)) -> preserves R (bind m k).
Proof.
  intros Hm Hk st. specialize (Hm st). unfold bind.
  destruct (m st) as [[a | e |] st1]; simpl in *; auto.
  eapply R_trans; [exact Hm | apply Hk].
Qed.

Lemma preserves_try_catch {A} (body : M A) handler :
  preserves R body -> (forall e, preserves R (handler e)) ->
  preserves R (try_catch body handler).
Proof.
  intros Hb Hh st. specialize (Hb st). unfold try_catch.
  destruct (body st) as [[a | e |] st1]; simpl in *; auto.
  eapply R_trans; [exact Hb | apply Hh].
Qed.

Lemma preserves_promise_all2 {A B} (p : M A) (q : M B) :
  preserves R p -> preserves R q -> preserves R (promise_all2 p q).
Proof.
  intros Hp Hq st. specialize (Hp st). unfold promise_all2.
  destruct (p st) as [ra st1]. specialize (Hq st1).
  destruct (q st1) as [rb st2]. simpl in *.
  assert (R st st2) by (eapply R_trans; eauto).
  destruct ra, rb; simpl; assumption.
Qed.

Lemma preserves_for_each {A} (f : A -> M unit) (l : list A) :
  (forall x, preserves R (f x)) -> preserves R (for_each f l).
Proof.
  intros Hf. induction l as [| x l IH]; simpl.
  - apply preserves_ret.
  - apply preserves_bind; auto.
Qed.

Lemma preserves_if {A} (b : bool) (m1 m2 : M A) :
  preserves R m1 -> preserves R m2 -> preserves R (if b then m1 else m2).
Proof. destruct b; auto. Qed.
End Preservation.

Lemma settles_ret {A} (a : A) : settles (ret a).
Proof. intros st. discriminate. Qed.

Lemma settles_bind {A B} (m : M A) (k : A -> M B) :
  settles m -> (forall a, settles (k a)) -> settles (bind m k).
Proof.
  intros Hm Hk st. specialize (Hm st). unfold bind.
  destruct (m st) as [[a | e |] st1]; simpl in *;
    [apply Hk | discriminate | congruence].
Qed.

Lemma settles_promise_all2 {A B} (p : M A) (q : M B) :
  settles p -> settles q -> settles (promise_all2 p q).
Proof.
  intros Hp Hq st. specialize (Hp st). unfold promise_all2.
  destruct (p st) as [ra st1]. specialize (Hq st1).
  destruct (q st1) as [rb st2]. simpl in *.
  destruct ra, rb; simpl; congruence.
Qed.

Lemma settles_for_each {A} (f : A -> M unit) (l : list A) :
  (forall x, settles (f x)) -> settles (for_each f l).
Proof.
  intros Hf. induction l as [| x l IH]; simpl.
  - apply settles_ret.
  - apply settles_bind; auto.
Qed.

Lemma settles_if {A} (b : bool) (m1 m2 : M A) :
  settles m1 -> settles m2 -> settles (if b then m1 else m2).
Proof. destruct b; auto. Qed.

(** ** Path sanitizer *)








(** ** Entry classifier *)

Lemma lower_ascii_letter (lower upper c : ascii) :
  lower_ascii upper = lower -> lower_ascii lower = lower ->
  (forall d, lower_ascii d = lower -> d = lower \/ d = upper) ->
  lower_ascii c = lower <-> eitherCase lower upper c.
Proof.
  intros Hu Hl Hinv. split; [apply Hinv |].
  intros [-> | ->]; assumption.
Qed.

Lemma lower_ascii_inv (c l : ascii) :
  lower_ascii c = l ->
  c = l \/ (c = ascii_of_nat (nat_of_ascii l - 32) /\
            (97 <=? nat_of_ascii l)%nat && (nat_of_ascii l <=? 122)%nat = true).
Proof.
  intros <-.
  destruct c as [[] [] [] [] [] [] [] []]; vm_compute; auto.
Qed.

Lemma lower_m c : lower_ascii c = "m"%char <-> eitherCase "m" "M" c.
Proof.
  apply lower_ascii_letter; try reflexivity.
  intros d Hd. destruct (lower_ascii_inv _ _ Hd) as [-> | [-> _]]; auto.
Qed.

Lemma lower_o c : lower_ascii c = "o"%char <-> eitherCase "o" "O" c.
Proof.
  apply lower_ascii_letter; try reflexivity.
  intros d Hd. destruct (lower_ascii_inv _ _ Hd) as [-> | [-> _]]; auto.
Qed.

Lemma lower_v c : lower_ascii c = "v"%char <-> eitherCase "v" "V" c.
Proof.
  apply lower_ascii_letter; try reflexivity.
  intros d Hd. destruct (lower_ascii_inv _ _ Hd) as [-> | [-> _]]; auto.
Qed.

Lemma lower_i c : lower_ascii c = "i"%char <-> eitherCase "i" "I" c.
Proof.
  apply lower_ascii_letter; try reflexivity.
  intros d Hd. destruct (lower_ascii_inv _ _ Hd) as [-> | [-> _]]; auto.
Qed.

Lemma lower_e c : lower_ascii c = "e"%char <-> eitherCase "e" "E" c.
Proof.
  apply lower_ascii_letter; try reflexivity.
  intros d Hd. destruct (lower_ascii_inv _ _ Hd) as [-> | [-> _]]; auto.
Qed.

Lemma toLowerCase_movie (s : string) :
  toLowerCase s = "movie" <-> movieSpelling s.
Proof.
  split.
  - destruct s as [| c1 [| c2 [| c3 [| c4 [| c5 [| c6 s]]]]]]; simpl;
      try discriminate.
    intros [= H1 H2 H3 H4 H5].
    exists c1, c2, c3, c4, c5. split; [reflexivity |].
    rewrite <- lower_m, <- lower_o, <- lower_v, <- lower_i, <- lower_e.
    auto.
  - intros (c1 & c2 & c3 & c4 & c5 & -> & H1 & H2 & H3 & H4 & H5).
    apply lower_m in H1. apply lower_o in H2. apply lower_v in H3.
    apply lower_i in H4. apply lower_e in H5.
    simpl. rewrite H1, H2, H3, H4, H5. reflexivity.
Qed.

Lemma classify_movie (show : Show) :
  classify show = Movie <-> movieSpelling (category show).
Proof.
  rewrite <- toLowerCase_movie. unfold classify.
  destruct (String.eqb_spec (toLowerCase (category show)) "movie");
    split; congruence.
Qed.

(** C8. The classifier answers [Movie] exactly when the category is the
    word movie up to letter case, and then the note targets the movies
    folder; for every other category, the empty one included, it answers
    [Series] and the note targets the shows folder. *)
Theorem classify_spec (show : Show) (moviesFolderPath showsFolderPath : string) :
  (classify show = Movie <-> movieSpelling (category show)) /\
  (classify show = Series <-> ~ movieSpelling (category show)) /\
  targetFolderPath show moviesFolderPath showsFolderPath =
    match classify show with
    | Movie => moviesFolderPath
    | Series => showsFolderPath
    end /\
  classify (mkShow (title show) (link show) (pubDate show) (description show)
              EmptyString (poster show) (keywords show) (rating show)
              (guid show) (year show)) = Series.
Proof.
  split; [apply classify_movie |].
  split; [| split; [unfold targetFolderPath; destruct (classify show) |]];
    try reflexivity.
  rewrite <- classify_movie. destruct (classify show); split; congruence.
Qed.

(** ** The host calls and the plugin's blocks, step by step *)

Ltac unfold_host :=
  unfold fetch, response_text, adapter_exists, createFolder,
    getAbstractFileByPath, create, modify, attempt, getVault, setVault, print,
    throw, ret, bind.

Ltac split_tests :=
  repeat match goal with
         | |- context [if ?b then _ else _] => destruct b eqn:?
         end.

Ltac host_call :=
  intros st; unfold_host; split_tests; simpl; split_tests; simpl.

Section HostCalls.
Context `{Host}.

Lemma settles_adapter_exists path : settles (adapter_exists path).
Proof. intros st. unfold_host. split_tests; discriminate. Qed.

Lemma settles_createFolder path : settles (createFolder path).
Proof. intros st. unfold_host. split_tests; simpl; split_tests; discriminate. Qed.

Lemma settles_getAbstractFileByPath path : settles (getAbstractFileByPath path).
Proof. intros st. discriminate. Qed.

Lemma settles_create path data : settles (create path data).
Proof. intros st. unfold_host. split_tests; simpl; split_tests; discriminate. Qed.

Lemma settles_modify file data : settles (modify file data).
Proof. intros st. destruct file; unfold_host; split_tests; discriminate. Qed.

Lemma settles_writeNote movies shows show : settles (writeNote movies shows show).
Proof.
  unfold writeNote.
  apply settles_bind; [apply settles_getAbstractFileByPath |].
  intros [file |]; (apply settles_bind; [| intros; apply settles_modify]).
  - apply settles_ret.
  - apply settles_create.
Qed.

Lemma settles_updateWatchFile folderPath : settles (updateWatchFile folderPath).
Proof.
  unfold updateWatchFile.
  apply settles_bind; [apply settles_getAbstractFileByPath |].
  intros [file |]; (apply settles_bind; [| intros; apply settles_modify]).
  - apply settles_ret.
  - apply settles_create.
Qed.

Lemma settles_updateWatchlist_try shows folderPath :
  settles (updateWatchlist_try shows folderPath).
Proof.
  unfold updateWatchlist_try.
  apply settles_bind;
    [apply settles_promise_all2; apply settles_adapter_exists |].
  intros [e0 e1].
  apply settles_bind;
    [apply settles_if; [apply settles_createFolder | apply settles_ret] |].
  intros _.
  apply settles_bind;
    [apply settles_if; [apply settles_createFolder | apply settles_ret] |].
  intros _.
  apply settles_bind;
    [apply settles_for_each; intros; apply settles_writeNote |].
  intros _. apply settles_updateWatchFile.
Qed.

(** [updateWatchlist] always returns normally. *)
Lemma updateWatchlist_returns shows folderPath st :
  fst (updateWatchlist shows folderPath st) = Ret tt.
Proof.
  unfold updateWatchlist, try_catch.
  pose proof (settles_updateWatchlist_try shows folderPath st) as Hs.
  destruct (updateWatchlist_try shows folderPath st) as [[[] | e |] st'];
    simpl in *; congruence.
Qed.

(** The outcome of [updateWatchlist]: either the guarded block completed, or
    it threw and the exception was printed; the vault is the one the block
    left in both cases. *)
Lemma updateWatchlist_cases shows folderPath st :
  (exists st', updateWatchlist_try shows folderPath st = (Ret tt, st') /\
     updateWatchlist shows folderPath st = (Ret tt, st')) \/
  (exists e st', updateWatchlist_try shows folderPath st = (Throw e, st') /\
     updateWatchlist shows folderPath st = (Ret tt, printed (Error_watchlist e) st')).
Proof.
  unfold updateWatchlist, try_catch.
  pose proof (settles_updateWatchlist_try shows folderPath st) as Hs.
  destruct (updateWatchlist_try shows folderPath st) as [[[] | e |] st'];
    simpl in *; [left | right | congruence]; eauto.
Qed.

Section Kept.
Context (R : State -> State -> Prop).
Hypothesis R_refl : forall st, R st st.
Hypothesis R_trans : forall a b c, R a b -> R b c -> R a c.
Hypothesis R_exists : forall path, preserves R (adapter_exists path).
Hypothesis R_createFolder : forall path, preserves R (createFolder path).
Hypothesis R_create : forall path data, preserves R (create path data).
Hypothesis R_modify : forall file data, preserves R (modify file data).

Lemma preserves_getAbstractFileByPath path :
  preserves R (getAbstractFileByPath path).
Proof. intros st. apply R_refl. Qed.

Lemma preserves_writeNote movies shows show :
  preserves R (writeNote movies shows show).
Proof.
  unfold writeNote.
  apply preserves_bind; auto using preserves_getAbstractFileByPath.
  intros [file |]; apply preserves_bind; auto using preserves_ret.
Qed.

Lemma preserves_updateWatchFile folderPath :
  preserves R (updateWatchFile folderPath).
Proof.
  unfold updateWatchFile.
  apply preserves_bind; auto using preserves_getAbstractFileByPath.
  intros [file |]; apply preserves_bind; auto using preserves_ret.
Qed.

Lemma preserves_updateWatchlist_try shows folderPath :
  preserves R (updateWatchlist_try shows folderPath).
Proof.
  unfold updateWatchlist_try.
  repeat (apply preserves_bind; [assumption | |]);
    auto using preserves_promise_all2, preserves_if, preserves_ret,
      preserves_for_each, preserves_writeNote, preserves_updateWatchFile.
  intros [e0 e1].
  repeat (apply preserves_bind; [assumption | |]);
    auto 6 using preserves_bind, preserves_if, preserves_ret,
      preserves_for_each, preserves_writeNote, preserves_updateWatchFile.
Qed.

Hypothesis R_print : forall line, preserves R (print line).

Lemma preserves_updateWatchlist shows folderPath :
  preserves R (updateWatchlist shows folderPath).
Proof.
  apply preserves_try_catch; auto using preserves_updateWatchlist_try.
Qed.

Hypothesis R_fetch : forall url, preserves R (fetch url).
Hypothesis R_text : forall response, preserves R (response_text response).

Lemma preserves_checkFeed_try settings recur url :
  (forall next, preserves R (recur next)) ->
  preserves R (checkFeed_try settings recur url).
Proof.
  intros Hrec. unfold checkFeed_try.
  apply preserves_bind; auto. intros response.
  apply preserves_bind; auto. intros text.
  apply preserves_bind; auto. intros _.
  apply preserves_bind; auto using preserves_updateWatchlist. intros _.
  destruct (docQuerySelector _ _) as [nextLink |]; auto using preserves_ret.
  destruct (getAttribute _ _) as [nextUrl |]; auto using preserves_ret.
  apply preserves_if; auto using preserves_ret, preserves_bind.
Qed.

Lemma preserves_checkFeed settings fuel url :
  preserves R (checkFeed settings fuel url).
Proof.
  revert url. induction fuel as [| fuel IH]; intros url; simpl;
    (apply preserves_if; [| apply preserves_ret; assumption]);
    (apply preserves_try_catch; auto);
    apply preserves_checkFeed_try; intros next;
    auto using preserves_pending.
Qed.
End Kept.
End HostCalls.

(** ** What a run keeps *)

Lemma vaultGrows_refl v : vaultGrows v v.
Proof. split; reflexivity. Qed.

Lemma vaultGrows_trans v1 v2 v3 :
  vaultGrows v1 v2 -> vaultGrows v2 v3 -> vaultGrows v1 v3.
Proof. intros [? ?] [? ?]. split; etransitivity; eassumption. Qed.

Lemma vaultGrows_mkdir path v : vaultGrows v (vault_mkdir path v).
Proof. split; simpl; set_solver. Qed.

Lemma vaultGrows_write path data v : vaultGrows v (vault_write path data v).
Proof. split; simpl; [reflexivity | rewrite dom_insert_L; set_solver]. Qed.

Lemma fetched_cons op h :
  fetched (op :: h) =
  (fetched h ++ match op with OpFetch u => [u] | _ => [] end)%list.
Proof.
  unfold fetched. simpl. rewrite omap_app. f_equal.
  destruct op; reflexivity.
Qed.

Lemma modified_cons op h :
  modified (op :: h) =
  (modified h ++ match op with OpModify p d => [(p, d)] | _ => [] end)%list.
Proof.
  unfold modified. simpl. rewrite omap_app. f_equal.
  destruct op; reflexivity.
Qed.

Section Kept_instances.
Context `{Host}.

Lemma checkFeed_keepsVault settings fuel url :
  preserves keepsVault (checkFeed settings fuel url).
Proof.
  apply preserves_checkFeed; unfold keepsVault.
  - intros. apply vaultGrows_refl.
  - intros. eapply vaultGrows_trans; eassumption.
  - intros path. host_call; apply vaultGrows_refl.
  - intros path. host_call;
      first [apply vaultGrows_refl | apply vaultGrows_mkdir].
  - intros path data. host_call;
      first [apply vaultGrows_refl | apply vaultGrows_write].
  - intros [path | path] data; host_call;
      first [apply vaultGrows_refl | apply vaultGrows_write].
  - intros line st. apply vaultGrows_refl.
  - intros url'. host_call; apply vaultGrows_refl.
  - intros response. host_call; apply vaultGrows_refl.
Qed.

Lemma updateWatchlist_keepsVault shows folderPath :
  preserves keepsVault (updateWatchlist shows folderPath).
Proof.
  apply preserves_updateWatchlist; unfold keepsVault.
  - intros. apply vaultGrows_refl.
  - intros. eapply vaultGrows_trans; eassumption.
  - intros path. host_call; apply vaultGrows_refl.
  - intros path. host_call;
      first [apply vaultGrows_refl | apply vaultGrows_mkdir].
  - intros path data. host_call;
      first [apply vaultGrows_refl | apply vaultGrows_write].
  - intros [path | path] data; host_call;
      first [apply vaultGrows_refl | apply vaultGrows_write].
  - intros line st. apply vaultGrows_refl.
Qed.

Lemma updateWatchlist_try_keepsConsole shows folderPath :
  preserves keepsConsole (updateWatchlist_try shows folderPath).
Proof.
  apply preserves_updateWatchlist_try; unfold keepsConsole.
  - reflexivity.
  - intros a b c H1 H2. congruence.
  - intros path. host_call; reflexivity.
  - intros path. host_call; reflexivity.
  - intros path data. host_call; reflexivity.
  - intros [path | path] data; host_call; reflexivity.
Qed.

Lemma updateWatchlist_keepsFetched shows folderPath :
  preserves keepsFetched (updateWatchlist shows folderPath).
Proof.
  apply preserves_updateWatchlist; unfold keepsFetched.
  - reflexivity.
  - intros a b c H1 H2. congruence.
  - intros path. host_call; rewrite ?fetched_cons, ?app_nil_r; reflexivity.
  - intros path. host_call; rewrite ?fetched_cons, ?app_nil_r; reflexivity.
  - intros path data. host_call; rewrite ?fetched_cons, ?app_nil_r; reflexivity.
  - intros [path | path] data; host_call;
      rewrite ?fetched_cons, ?app_nil_r; reflexivity.
  - intros line st. reflexivity.
Qed.
End Kept_instances.

(** ** Blocks that complete *)

Ltac split_tests_in H :=
  repeat match type of H with
         | context [if ?b then _ else _] => destruct b eqn:?; simpl in H
         end.

Section Completion.
Context `{Host}.

Lemma adapter_exists_run path st :
  exists r, adapter_exists path st = (r, issue (OpExists path) st) /\
    (forall b, r = Ret b -> b = vault_exists (vault st) path).
Proof.
  unfold_host. split_tests; eexists; (split; [reflexivity |]);
    intros b [= <-]; reflexivity.
Qed.

Lemma createFolder_Ret path st u st' :
  createFolder path st = (Ret u, st') ->
  st' = withVault (vault_mkdir path (vault st)) (issue (OpCreateFolder path) st) /\
  vault_exists (vault st) path = false.
Proof.
  unfold_host. intros Hrun. split_tests_in Hrun; try discriminate.
  injection Hrun as _ <-. auto.
Qed.

Lemma create_Ret path data st file st' :
  create path data st = (Ret file, st') ->
  file = TFile path /\
  st' = withVault (vault_write path data (vault st)) (issue (OpCreate path data) st) /\
  vault_exists (vault st) path = false.
Proof.
  unfold_host. intros Hrun. split_tests_in Hrun; try discriminate.
  injection Hrun as <- <-. auto.
Qed.

Lemma modify_Ret file data st u st' :
  modify file data st = (Ret u, st') ->
  exists path, file = TFile path /\
    st' = withVault (vault_write path data (vault st)) (issue (OpModify path data) st).
Proof.
  destruct file as [path | path]; unfold_host; intros Hrun;
    split_tests_in Hrun; try discriminate.
  injection Hrun as _ <-. eauto.
Qed.

(** A completed create-or-get-then-write leaves the file with the new
    content; the file is created exactly when no file was at the path. *)
Lemma upsert_Ret path data st u st' :
  upsert path data st = (Ret u, st') ->
  files (vault st') = <[path := data]> (files (vault st)) /\
  folders (vault st') = folders (vault st) /\
  console st' = console st /\
  history st' =
    OpModify path data ::
    ((if bool_decide (is_Some (files (vault st) !! path)) then []
      else [OpCreate path EmptyString]) ++ history st)%list.
Proof.
  unfold upsert, getAbstractFileByPath, getVault. unfold bind at 1 2. simpl.
  unfold vault_lookup.
  destruct (bool_decide (is_Some (files (vault st) !! path))) eqn:Hfile.
  - unfold bind, ret. intros Hrun.
    apply modify_Ret in Hrun as (p & [= <-] & ->). simpl.
    repeat split; reflexivity.
  - destruct (bool_decide (path ∈ folders (vault st))) eqn:Hdir.
    + unfold bind, ret. intros Hrun.
      apply modify_Ret in Hrun as (p & [=] & _).
    + intros Hrun. apply bind_Ret_inv in Hrun as (file & st1 & Hc & Hm).
      apply create_Ret in Hc as (-> & -> & _).
      apply modify_Ret in Hm as (p & [= <-] & ->). simpl.
      rewrite insert_insert_eq. repeat split; reflexivity.
Qed.

Lemma writeNote_upsert movies shows show :
  writeNote movies shows show =
  upsert (notePath movies shows show) (noteContent show).
Proof. reflexivity. Qed.

Lemma updateWatchFile_upsert folderPath :
  updateWatchFile folderPath =
  upsert (watchFilePath folderPath) watchFileContent.
Proof. reflexivity. Qed.

Lemma applyWrites_app ws1 ws2 fs :
  applyWrites (ws1 ++ ws2) fs = applyWrites ws2 (applyWrites ws1 fs).
Proof. unfold applyWrites. apply foldl_app. Qed.

(** The loop of lines 158-192, when it completes. *)
Lemma for_each_writeNote_Ret movies shows l st u st' :
  for_each (writeNote movies shows) l st = (Ret u, st') ->
  files (vault st') =
    applyWrites (List.map (noteWrite movies shows) l) (files (vault st)) /\
  folders (vault st') = folders (vault st) /\
  console st' = console st /\
  modified (history st') =
    (modified (history st) ++ List.map (noteWrite movies shows) l)%list.
Proof.
  revert st. induction l as [| show l IH]; intros st; simpl.
  - intros Hrun. inversion Hrun; subst. rewrite app_nil_r. auto.
  - intros Hrun. apply bind_Ret_inv in Hrun as ([] & st1 & Hw & Hrest).
    rewrite writeNote_upsert in Hw.
    apply upsert_Ret in Hw as (Hf & Hd & Hc & Hh).
    apply IH in Hrest as (Hf' & Hd' & Hc' & Hh').
    rewrite Hf', Hd', Hc', Hh', Hf, Hd, Hc, Hh.
    repeat split; try reflexivity.
    rewrite modified_cons.
    destruct (bool_decide _); simpl; rewrite ?modified_cons, ?app_nil_r;
      rewrite <- app_assoc; reflexivity.
Qed.

(** In a vault where every written path already holds a file, the loop
    issues no creating call. *)
Lemma for_each_writeNote_no_creation movies shows l st u st' :
  for_each (writeNote movies shows) l st = (Ret u, st') ->
  (forall show, List.In show l ->
     is_Some (files (vault st) !! notePath movies shows show)) ->
  List.filter isCreation (history st') = List.filter isCreation (history st).
Proof.
  revert st. induction l as [| show l IH]; intros st; simpl.
  - intros Hrun _. inversion Hrun; subst. reflexivity.
  - intros Hrun Hall. apply bind_Ret_inv in Hrun as ([] & st1 & Hw & Hrest).
    rewrite writeNote_upsert in Hw.
    apply upsert_Ret in Hw as (Hf & Hd & Hc & Hh).
    apply IH in Hrest.
    + rewrite Hrest, Hh.
      rewrite (bool_decide_eq_true_2 _ (Hall show (or_introl eq_refl))).
      reflexivity.
    + intros show' Hin. rewrite Hf. apply lookup_insert_is_Some'.
      right. apply Hall. right. exact Hin.
Qed.

Lemma promise_all2_exists_Ret a b st x y st' :
  promise_all2 (adapter_exists a) (adapter_exists b) st = (Ret (x, y), st') ->
  st' = issue (OpExists b) (issue (OpExists a) st) /\
  x = vault_exists (vault st) a /\ y = vault_exists (vault st) b.
Proof.
  unfold promise_all2.
  destruct (adapter_exists_run a st) as (ra & -> & Ha).
  destruct (adapter_exists_run b (issue (OpExists a) st)) as (rb & -> & Hb).
  destruct ra as [x' | |], rb as [y' | |]; try discriminate.
  intros [= <- <- <-]. rewrite (Ha x' eq_refl), (Hb y' eq_refl). auto.
Qed.

(** Lines 150-156: a folder is created when the existence test failed. *)
Lemma ensureFolder_Ret (found : bool) path st u st' :
  (if negb found then createFolder path else ret tt) st = (Ret u, st') ->
  folders (vault st') = (if found then ∅ else {[path]}) ∪ folders (vault st) /\
  files (vault st') = files (vault st) /\
  console st' = console st /\
  modified (history st') = modified (history st) /\
  (found = true -> history st' = history st).
Proof.
  destruct found; simpl.
  - intros Hrun. inversion Hrun; subst.
    repeat split; try reflexivity. set_solver.
  - intros Hrun. apply createFolder_Ret in Hrun as (-> & _). simpl.
    rewrite modified_cons, app_nil_r. repeat split; try reflexivity.
    discriminate.
Qed.

Lemma vault_exists_missing v folderPath :
  missingFolders v folderPath = ∅ <->
  vault_exists v (moviesFolder folderPath) = true /\
  vault_exists v (showsFolder folderPath) = true.
Proof.
  unfold missingFolders.
  destruct (vault_exists v (moviesFolder folderPath)),
    (vault_exists v (showsFolder folderPath)); split;
    try (intros [? ?]; discriminate); try set_solver.
Qed.

(** The guarded block of [updateWatchlist], when it completes: folders
    ensured, the writes of the entries and of the index applied in order,
    nothing printed. *)
Lemma updateWatchlist_try_Ret shows folderPath st u st' :
  updateWatchlist_try shows folderPath st = (Ret u, st') ->
  files (vault st') =
    applyWrites (syncWrites shows folderPath) (files (vault st)) /\
  folders (vault st') = missingFolders (vault st) folderPath ∪ folders (vault st) /\
  console st' = console st /\
  modified (history st') =
    (modified (history st) ++ syncWrites shows folderPath)%list.
Proof.
  unfold updateWatchlist_try. intros Hrun.
  apply bind_Ret_inv in Hrun as ([e0 e1] & st1 & Hex & Hrun).
  apply promise_all2_exists_Ret in Hex as (-> & -> & ->).
  apply bind_Ret_inv in Hrun as ([] & st2 & Hs & Hrun).
  apply ensureFolder_Ret in Hs as (Hd2 & Hf2 & Hc2 & Hm2 & _).
  apply bind_Ret_inv in Hrun as ([] & st3 & Hm & Hrun).
  apply ensureFolder_Ret in Hm as (Hd3 & Hf3 & Hc3 & Hm3 & _).
  apply bind_Ret_inv in Hrun as ([] & st4 & Hloop & Hrun).
  apply for_each_writeNote_Ret in Hloop as (Hf4 & Hd4 & Hc4 & Hm4).
  rewrite updateWatchFile_upsert in Hrun.
  apply upsert_Ret in Hrun as (Hf5 & Hd5 & Hc5 & Hh5).
  simpl in *.
  repeat split.
  - unfold syncWrites. rewrite applyWrites_app. simpl.
    rewrite Hf5, Hf4, Hf3, Hf2. reflexivity.
  - rewrite Hd5, Hd4, Hd3, Hd2. unfold missingFolders. set_solver.
  - congruence.
  - rewrite Hh5, modified_cons. unfold syncWrites.
    destruct (bool_decide _); simpl;
      rewrite ?modified_cons, ?app_nil_r, Hm4, Hm3, Hm2, !modified_cons,
        !app_nil_r, <- app_assoc; reflexivity.
Qed.

(** When both folders and every written path are already there, the block
    issues no creating call. *)
Lemma updateWatchlist_try_no_creation shows folderPath st u st' :
  updateWatchlist_try shows folderPath st = (Ret u, st') ->
  missingFolders (vault st) folderPath = ∅ ->
  (forall w, List.In w (syncWrites shows folderPath) ->
     is_Some (files (vault st) !! fst w)) ->
  List.filter isCreation (history st') = List.filter isCreation (history st).
Proof.
  unfold updateWatchlist_try. intros Hrun Hmiss Hall.
  apply vault_exists_missing in Hmiss as [Hmovies Hshows].
  apply bind_Ret_inv in Hrun as ([e0 e1] & st1 & Hex & Hrun).
  apply promise_all2_exists_Ret in Hex as (-> & -> & ->).
  simpl in Hrun. rewrite Hmovies, Hshows in Hrun. simpl in Hrun.
  apply bind_Ret_inv in Hrun as ([] & st2 & Hs & Hrun).
  inversion Hs; subst st2; clear Hs.
  apply bind_Ret_inv in Hrun as ([] & st3 & Hm & Hrun).
  inversion Hm; subst st3; clear Hm.
  apply bind_Ret_inv in Hrun as ([] & st4 & Hloop & Hrun).
  pose proof (for_each_writeNote_Ret _ _ _ _ _ _ Hloop) as (Hf4 & _).
  apply for_each_writeNote_no_creation in Hloop.
  - rewrite updateWatchFile_upsert in Hrun.
    apply upsert_Ret in Hrun as (_ & _ & _ & Hh5).
    rewrite Hh5.
    assert (Hw : is_Some (files (vault st4) !! watchFilePath folderPath)).
    { rewrite Hf4. clear -Hall.
      specialize (Hall (watchFilePath folderPath, watchFileContent)).
      simpl in Hall.
      assert (Hi : is_Some (files (vault st) !! watchFilePath folderPath)).
      { apply Hall. unfold syncWrites. apply in_or_app. right. left. reflexivity. }
      revert Hi. simpl.
      generalize (files (vault st)).
      induction (List.map _ shows) as [| w ws IH]; intros fs Hi; simpl; auto.
      apply IH. apply lookup_insert_is_Some'. auto. }
    rewrite (bool_decide_eq_true_2 _ Hw). simpl. exact Hloop.
  - intros show Hin. simpl.
    apply (Hall (noteWrite (moviesFolder folderPath) (showsFolder folderPath) show)).
    unfold syncWrites. apply in_or_app. left.
    apply in_map. exact Hin.
Qed.
End Completion.

(** ** Whole-file writes are idempotent *)

Lemma applyWrites_is_Some ws (fs : gmap string string) p :
  is_Some (fs !! p) -> is_Some (applyWrites ws fs !! p).
Proof.
  revert fs. induction ws as [| w ws IH]; intros fs Hp; simpl; auto.
  apply IH. apply lookup_insert_is_Some'. auto.
Qed.

Lemma applyWrites_written ws (fs : gmap string string) w :
  List.In w ws -> is_Some (applyWrites ws fs !! fst w).
Proof.
  revert fs. induction ws as [| w' ws IH]; intros fs; simpl; [tauto |].
  intros [-> | Hin]; [| auto].
  apply applyWrites_is_Some. rewrite lookup_insert_eq. eauto.
Qed.

Lemma applyWrites_lookup ws (fs : gmap string string) p :
  applyWrites ws fs !! p =
  match lastWrite ws p with
  | Some d => Some d
  | None => fs !! p
  end.
Proof.
  revert fs. induction ws as [| [q d] ws IH]; intros fs; simpl; [reflexivity |].
  rewrite IH. destruct (lastWrite ws p); [reflexivity |].
  destruct (String.eqb_spec q p) as [-> | Hne].
  - apply lookup_insert_eq.
  - apply lookup_insert_ne. exact Hne.
Qed.

Lemma applyWrites_idempotent ws (fs : gmap string string) :
  applyWrites ws (applyWrites ws fs) = applyWrites ws fs.
Proof.
  apply map_eq. intros p. rewrite !applyWrites_lookup.
  destruct (lastWrite ws p); reflexivity.
Qed.

(** ** Runs on a host whose calls do not reject *)

Section Reliable.
Context `{Host}.
Hypothesis reliable : forall h op, faulty h op = false.

Lemma adapter_exists_ok path st :
  adapter_exists path st =
  (Ret (vault_exists (vault st) path), issue (OpExists path) st).
Proof. unfold_host. rewrite reliable. reflexivity. Qed.

Lemma createFolder_ok path st :
  vault_exists (vault st) path = false ->
  createFolder path st =
  (Ret tt, withVault (vault_mkdir path (vault st)) (issue (OpCreateFolder path) st)).
Proof. intros Hnew. unfold_host. rewrite reliable. simpl. rewrite Hnew. reflexivity. Qed.

Lemma upsert_ok path data st :
  is_Some (files (vault st) !! path) \/ path ∉ folders (vault st) ->
  exists st', upsert path data st = (Ret tt, st').
Proof.
  intros Hfree. unfold upsert, vault_lookup. unfold_host. simpl.
  unfold vault_lookup, vault_exists.
  destruct (bool_decide (is_Some (files (vault st) !! path))) eqn:Hfile.
  - rewrite reliable. simpl. eauto.
  - destruct Hfree as [Hsome | Hnot];
      [apply bool_decide_eq_false_1 in Hfile; contradiction |].
    repeat progress
      (rewrite ?reliable, ?Hfile, ?(bool_decide_eq_false_2 _ Hnot); simpl).
    eauto.
Qed.
End Reliable.

Section Synchronizer.
Context `{Host}.

Lemma console_no_new_line (line : Console) (c : list Console) : c <> line :: c.
Proof. intros Heq. apply (f_equal length) in Heq. simpl in Heq. lia. Qed.

(** A call of [updateWatchlist] that printed nothing completed its guarded
    block. *)
Lemma updateWatchlist_quiet shows folderPath st :
  console (snd (updateWatchlist shows folderPath st)) = console st ->
  updateWatchlist_try shows folderPath st =
  (Ret tt, snd (updateWatchlist shows folderPath st)).
Proof.
  intros Hquiet.
  destruct (updateWatchlist_cases shows folderPath st)
    as [(st' & Htry & Hrun) | (e & st' & Htry & Hrun)];
    rewrite Hrun in *; simpl in *; [exact Htry |].
  pose proof (updateWatchlist_try_keepsConsole shows folderPath st) as Hkeep.
  unfold keepsConsole in Hkeep. rewrite Htry in Hkeep. simpl in Hkeep.
  rewrite Hkeep in Hquiet. symmetry in Hquiet.
  destruct (console_no_new_line _ _ Hquiet).
Qed.

(** C10. Called with no entry on a host whose calls do not reject, with the
    three target paths distinct and no folder in the way of the index note,
    [updateWatchlist] completes without printing, creates the shows and
    movies folders that were missing, and leaves the index note holding the
    template: neither step depends on the entry list. *)
Theorem updateWatchlist_no_entries folderPath st :
  (forall h op, faulty h op = false) ->
  showsFolder folderPath <> moviesFolder folderPath ->
  watchFilePath folderPath <> showsFolder folderPath ->
  watchFilePath folderPath <> moviesFolder folderPath ->
  watchFilePath folderPath ∉ folders (vault st) ->
  exists st',
    updateWatchlist [] folderPath st = (Ret tt, st') /\
    console st' = console st /\
    folders (vault st') = missingFolders (vault st) folderPath ∪ folders (vault st) /\
    vault_exists (vault st') (showsFolder folderPath) = true /\
    vault_exists (vault st') (moviesFolder folderPath) = true /\
    files (vault st') =
      <[watchFilePath folderPath := watchFileContent]> (files (vault st)).
Proof.
  intros reliable Hsm Hws Hwm Hwf.
  assert (Htry : exists st',
             updateWatchlist_try [] folderPath st = (Ret tt, st')).
  { unfold updateWatchlist_try, promise_all2.
    unfold bind at 1. rewrite !(adapter_exists_ok reliable). simpl.
    set (st1 := issue _ (issue _ st)).
    destruct (vault_exists (vault st) (showsFolder folderPath)) eqn:Es;
      destruct (vault_exists (vault st) (moviesFolder folderPath)) eqn:Em;
      simpl.
    - unfold bind at 1 2 3. simpl. rewrite updateWatchFile_upsert.
      apply (upsert_ok reliable). right. exact Hwf.
    - unfold bind at 1 2. simpl.
      rewrite (createFolder_ok reliable) by exact Em.
      unfold bind at 1. simpl. rewrite updateWatchFile_upsert.
      apply (upsert_ok reliable). right. simpl. set_solver.
    - unfold bind at 1.
      rewrite (createFolder_ok reliable) by exact Es.
      unfold bind at 1 2. simpl. rewrite updateWatchFile_upsert.
      apply (upsert_ok reliable). right. simpl. set_solver.
    - unfold bind at 1.
      rewrite (createFolder_ok reliable) by exact Es.
      unfold bind at 1.
      rewrite (createFolder_ok reliable).
      + unfold bind at 1. simpl. rewrite updateWatchFile_upsert.
        apply (upsert_ok reliable). right. simpl. set_solver.
      + simpl. unfold vault_exists in *. simpl.
        apply orb_false_iff in Em as [Emd Emf].
        apply orb_false_iff. split; [| exact Emf].
        apply bool_decide_eq_false_2. apply bool_decide_eq_false_1 in Emd.
        set_solver. }
  destruct Htry as (st' & Htry). exists st'.
  pose proof (updateWatchlist_try_Ret _ _ _ _ _ Htry) as (Hf & Hd & Hc & _).
  split; [unfold updateWatchlist; apply try_catch_Ret; exact Htry |].
  split; [exact Hc |]. split; [exact Hd |].
  assert (Hin : forall p, vault_exists (vault st) p = false ->
                  p ∈ missingFolders (vault st) folderPath ->
                  vault_exists (vault st') p = true).
  { intros p _ Hp. unfold vault_exists. rewrite Hd.
    apply orb_true_iff. left. apply bool_decide_eq_true_2. set_solver. }
  assert (Hkeep : forall p, vault_exists (vault st) p = true ->
                    vault_exists (vault st') p = true).
  { intros p Hp. unfold vault_exists in *. rewrite Hd, Hf.
    apply orb_true_iff in Hp as [Hp | Hp]; apply orb_true_iff; [left | right];
      apply bool_decide_eq_true_2; apply bool_decide_eq_true_1 in Hp.
    - set_solver.
    - apply applyWrites_is_Some. exact Hp. }
  repeat split.
  - destruct (vault_exists (vault st) (showsFolder folderPath)) eqn:Es;
      [apply Hkeep; exact Es | apply Hin; [exact Es |]].
    unfold missingFolders. rewrite Es. set_solver.
  - destruct (vault_exists (vault st) (moviesFolder folderPath)) eqn:Em;
      [apply Hkeep; exact Em | apply Hin; [exact Em |]].
    unfold missingFolders. rewrite Em. set_solver.
  - rewrite Hf. reflexivity.
Qed.

(** C3. When two calls of [updateWatchlist] in succession, with the same
    entries and root path, both complete without printing an error, the
    first leaves the files its writes produce and the second changes
    nothing: the vault after it is the vault before it, every note byte for
    byte, and it issues no call that creates a file or a folder. *)
Theorem updateWatchlist_twice shows folderPath st0 :
  let st1 := snd (updateWatchlist shows folderPath st0) in
  let st2 := snd (updateWatchlist shows folderPath st1) in
  console st1 = console st0 ->
  console st2 = console st1 ->
  files (vault st1) =
    applyWrites (syncWrites shows folderPath) (files (vault st0)) /\
  vault st2 = vault st1 /\
  List.filter isCreation (history st2) = List.filter isCreation (history st1).
Proof.
  intros st1 st2 Hq1 Hq2.
  apply updateWatchlist_quiet in Hq1, Hq2. fold st1 in Hq1, Hq2. fold st2 in Hq2.
  pose proof (updateWatchlist_try_Ret _ _ _ _ _ Hq1) as (Hf1 & Hd1 & _ & _).
  pose proof (updateWatchlist_try_Ret _ _ _ _ _ Hq2) as (Hf2 & Hd2 & _ & _).
  assert (Hmiss : missingFolders (vault st1) folderPath = ∅).
  { apply vault_exists_missing. unfold vault_exists. rewrite Hd1.
    unfold missingFolders, vault_exists.
    split; apply orb_true_iff.
    - destruct (bool_decide (moviesFolder folderPath ∈ folders (vault st0))
                || bool_decide (is_Some (files (vault st0) !! moviesFolder folderPath)))
        eqn:E.
      + apply orb_true_iff in E as [E | E]; [left | right];
          apply bool_decide_eq_true_2; apply bool_decide_eq_true_1 in E.
        * set_solver.
        * rewrite Hf1. apply applyWrites_is_Some. exact E.
      + left. apply bool_decide_eq_true_2. set_solver.
    - destruct (bool_decide (showsFolder folderPath ∈ folders (vault st0))
                || bool_decide (is_Some (files (vault st0) !! showsFolder folderPath)))
        eqn:E.
      + apply orb_true_iff in E as [E | E]; [left | right];
          apply bool_decide_eq_true_2; apply bool_decide_eq_true_1 in E.
        * set_solver.
        * rewrite Hf1. apply applyWrites_is_Some. exact E.
      + left. apply bool_decide_eq_true_2. set_solver. }
  split; [exact Hf1 |]. split.
  - destruct (vault st2) as [d2 f2], (vault st1) as [d1 f1]. simpl in *.
    rewrite Hd2, Hf2, Hmiss, Hf1, applyWrites_idempotent.
    f_equal. set_solver.
  - apply (updateWatchlist_try_no_creation _ _ _ _ _ Hq2 Hmiss).
    intros w Hw. rewrite Hf1. apply applyWrites_written. exact Hw.
Qed.

(** C7, as the code has it. After a call of [updateWatchlist] that completed
    without printing an error, the index note exists at the watch path and
    holds exactly the fixed template, whatever it held before; the content
    is the same for every entry list, root path and vault. *)
Theorem watchFile_regenerated shows folderPath st :
  let st' := snd (updateWatchlist shows folderPath st) in
  console st' = console st ->
  files (vault st') !! watchFilePath folderPath = Some watchFileContent /\
  (forall shows2 folderPath2 st2,
     let st2' := snd (updateWatchlist shows2 folderPath2 st2) in
     console st2' = console st2 ->
     files (vault st2') !! watchFilePath folderPath2 =
     files (vault st') !! watchFilePath folderPath).
Proof.
  assert (Hwatch : forall l root s,
            console (snd (updateWatchlist l root s)) = console s ->
            files (vault (snd (updateWatchlist l root s))) !! watchFilePath root =
            Some watchFileContent).
  { intros l root s Hq. apply updateWatchlist_quiet in Hq.
    apply updateWatchlist_try_Ret in Hq as (Hf & _).
    rewrite Hf. unfold syncWrites. rewrite applyWrites_app. simpl.
    apply lookup_insert_eq. }
  intros st' Hq. split; [apply Hwatch; exact Hq |].
  intros shows2 folderPath2 st2 st2' Hq2. subst st' st2'.
  rewrite (Hwatch _ _ _ Hq), (Hwatch _ _ _ Hq2). reflexivity.
Qed.

(** Last write wins. After a call of [updateWatchlist] that completed
    without printing an error, every path written holds the content of the
    last write to it (of two entries whose titles sanitize to the same file
    name, the later one), and every other file is as it was: notes of
    entries that left the feed are not deleted. *)
Theorem updateWatchlist_last_write_wins shows folderPath st path :
  let st' := snd (updateWatchlist shows folderPath st) in
  console st' = console st ->
  files (vault st') !! path =
  match lastWrite (syncWrites shows folderPath) path with
  | Some data => Some data
  | None => files (vault st) !! path
  end.
Proof.
  intros st' Hq. apply updateWatchlist_quiet in Hq. fold st' in Hq.
  apply updateWatchlist_try_Ret in Hq as (Hf & _).
  rewrite Hf. apply applyWrites_lookup.
Qed.
End Synchronizer.

(** ** Blocks that throw *)

Lemma bind_Throw_inv {A B} (m : M A) (k : A -> M B) st e st' :
  bind m k st = (Throw e, st') ->
  m st = (Throw e, st') \/
  exists a st1, m st = (Ret a, st1) /\ k a st1 = (Throw e, st').
Proof.
  unfold bind. destruct (m st) as [[a | e1 |] st1]; try discriminate.
  - intros Hk. right. eauto.
  - intros [= -> ->]. left. reflexivity.
Qed.

Section Interrupted.
Context `{Host}.

Lemma keepsWrites_trans a b c : keepsWrites a b -> keepsWrites b c -> keepsWrites a c.
Proof. unfold keepsWrites, keepsFiles. intros [? ?] [? ?]. split; congruence. Qed.

Lemma adapter_exists_keepsWrites path : preserves keepsWrites (adapter_exists path).
Proof. host_call; split; unfold issue; simpl; rewrite ?modified_cons, ?app_nil_r; reflexivity. Qed.

Lemma createFolder_keepsWrites path : preserves keepsWrites (createFolder path).
Proof. host_call; split; unfold issue; simpl; rewrite ?modified_cons, ?app_nil_r; reflexivity. Qed.


Lemma adapter_exists_Throw path st e st' :
  adapter_exists path st = (Throw e, st') ->
  exists op, e = StorageError op /\ folderCall op = true.
Proof.
  unfold_host. intros Hrun. split_tests_in Hrun; try discriminate.
  injection Hrun as <- _. eauto.
Qed.

Lemma createFolder_Throw path st e st' :
  createFolder path st = (Throw e, st') ->
  exists op, e = StorageError op /\ folderCall op = true.
Proof.
  unfold_host. intros Hrun. split_tests_in Hrun; try discriminate;
    injection Hrun as <- _; eauto.
Qed.

Lemma foldersExist_Throw movies shows st e st' :
  promise_all2 (adapter_exists shows) (adapter_exists movies) st = (Throw e, st') ->
  exists op, e = StorageError op /\ folderCall op = true.
Proof.
  unfold promise_all2.
  destruct (adapter_exists shows st) as [[a | e1 |] st1] eqn:Ha;
    destruct (adapter_exists movies st1) as [[b | e2 |] st2] eqn:Hb;
    try discriminate; intros [= <- _];
    eauto using adapter_exists_Throw.
Qed.

Lemma ensureFolder_Throw (found : bool) path st e st' :
  (if negb found then createFolder path else ret tt) st = (Throw e, st') ->
  exists op, e = StorageError op /\ folderCall op = true.
Proof.
  destruct found; simpl; [discriminate | apply createFolder_Throw].
Qed.

Lemma foldersExist_keepsWrites movies shows :
  preserves keepsWrites
    (promise_all2 (adapter_exists shows) (adapter_exists movies)).
Proof.
  apply (preserves_promise_all2 keepsWrites keepsWrites_trans);
    apply adapter_exists_keepsWrites.
Qed.

Lemma ensureFolder_keepsWrites (found : bool) path :
  preserves keepsWrites (if negb found then createFolder path else ret tt).
Proof.
  apply preserves_if; [apply createFolder_keepsWrites |].
  intros st. split; reflexivity.
Qed.

(** A create-or-get-then-write that throws: the rejected call is the
    creation of the file or the write; the file store is as it was, except
    that a path which held nothing may hold a new empty file when the write
    is the call that failed. *)
Lemma upsert_Throw path data st e st' :
  upsert path data st = (Throw e, st') ->
  exists op,
    e = StorageError op /\
    (op = OpCreate path EmptyString \/ op = OpModify path data) /\
    modified (history st') = (modified (history st) ++ writeOf op)%list /\
    (files (vault st') = files (vault st) \/
     files (vault st) !! path = None /\
     files (vault st') = <[path := EmptyString]> (files (vault st))).
Proof.
  unfold upsert, getAbstractFileByPath, getVault. unfold bind at 1 2. simpl.
  unfold vault_lookup.
  destruct (bool_decide (is_Some (files (vault st) !! path))) eqn:Hfile.
  - unfold_host. intros Hrun. split_tests_in Hrun; try discriminate.
    injection Hrun as <- <-. eexists. split; [reflexivity |].
    split; [right; reflexivity |]. simpl. rewrite modified_cons. auto.
  - destruct (bool_decide (path ∈ folders (vault st))).
    + unfold_host. intros Hrun. split_tests_in Hrun;
        injection Hrun as <- <-; (eexists; split; [reflexivity |]);
        (split; [right; reflexivity |]); simpl; rewrite modified_cons; auto.
    + intros Hrun. apply bind_Throw_inv in Hrun
        as [Hc | (file & st1 & Hc & Hm)].
      * revert Hc. unfold_host. intros Hc.
        split_tests_in Hc; try discriminate; injection Hc as <- <-;
          (eexists; split; [reflexivity |]);
          (split; [left; reflexivity |]); simpl; rewrite modified_cons, app_nil_r;
          auto.
      * apply create_Ret in Hc as (-> & -> & _).
        revert Hm. unfold_host. intros Hm.
        split_tests_in Hm; try discriminate. injection Hm as <- <-.
        eexists. split; [reflexivity |]. split; [right; reflexivity |].
        simpl. rewrite !modified_cons, app_nil_r. split; [reflexivity |].
        right. split; [| reflexivity].
        apply bool_decide_eq_false_1 in Hfile.
        destruct (files (vault st) !! path) eqn:E; [| reflexivity].
        exfalso. apply Hfile. eauto.
Qed.

(** The loop of lines 158-192, when an iteration throws: the entries before
    it are written, none after it is, and the rejected call belongs to the
    entry the loop stopped at. *)
Lemma for_each_writeNote_Throw movies shows l st e st' :
  for_each (writeNote movies shows) l st = (Throw e, st') ->
  exists done show rest op,
    l = (done ++ show :: rest)%list /\
    e = StorageError op /\
    (op = OpCreate (notePath movies shows show) EmptyString \/
     op = OpModify (notePath movies shows show) (noteContent show)) /\
    modified (history st') =
      (modified (history st) ++ List.map (noteWrite movies shows) done ++
       writeOf op)%list /\
    let written :=
      applyWrites (List.map (noteWrite movies shows) done) (files (vault st)) in
    files (vault st') = written \/
    written !! notePath movies shows show = None /\
    files (vault st') = <[notePath movies shows show := EmptyString]> written.
Proof.
  revert st. induction l as [| x l IH]; intros st; simpl; [discriminate |].
  intros Hrun. apply bind_Throw_inv in Hrun as [Hw | ([] & st1 & Hw & Hrest)].
  - exists [], x, l. rewrite writeNote_upsert in Hw.
    apply upsert_Throw in Hw as (op & -> & Hop & Hm & Hf).
    exists op. simpl. auto.
  - apply IH in Hrest as (done & show & rest & op & -> & -> & Hop & Hm & Hfiles).
    rewrite writeNote_upsert in Hw. apply upsert_Ret in Hw as (Hf & _ & _ & Hh).
    exists (x :: done), show, rest, op. split; [reflexivity |].
    split; [reflexivity |]. split; [exact Hop |].
    split.
    + rewrite Hm, Hh, modified_cons. simpl.
      destruct (bool_decide _); simpl; rewrite ?modified_cons, ?app_nil_r,
        <- ?app_assoc; reflexivity.
    + simpl in *. rewrite <- Hf. exact Hfiles.
Qed.

Lemma interrupts_folderCall op path data :
  folderCall op = true -> interrupts op [] path data /\ writeOf op = [].
Proof. destruct op; try discriminate; intros _; split; reflexivity. Qed.

(** The guarded block of [updateWatchlist], when it throws. The rejected
    call splits the content writes of the block: those before it were
    issued and are in effect, the one it belongs to was issued only when it
    is the rejected call itself, those after it were not issued. Every path
    written before the rejection holds what was last written to it; the path
    the block stopped at holds what it held, or a new empty file when it
    held nothing. *)
Lemma updateWatchlist_try_Throw shows folderPath st e st' :
  updateWatchlist_try shows folderPath st = (Throw e, st') ->
  exists done path data rest op,
    syncWrites shows folderPath = (done ++ (path, data) :: rest)%list /\
    e = StorageError op /\
    interrupts op done path data /\
    modified (history st') = (modified (history st) ++ done ++ writeOf op)%list /\
    (files (vault st') = applyWrites done (files (vault st)) \/
     applyWrites done (files (vault st)) !! path = None /\
     files (vault st') =
       <[path := EmptyString]> (applyWrites done (files (vault st)))) /\
    (forall written content,
       lastWrite done written = Some content ->
       files (vault st') !! written = Some content).
Proof.
  unfold updateWatchlist_try. intros Hrun.
  assert (Hfirst : exists path data rest,
             syncWrites shows folderPath = ((path, data) :: rest)%list).
  { unfold syncWrites. destruct shows as [| show l]; simpl; eauto. }
  destruct Hfirst as (path0 & data0 & rest0 & Hfirst).
  assert (Hearly : keepsWrites st st' ->
            (exists op, e = StorageError op /\ folderCall op = true) ->
            exists done path data rest op,
              syncWrites shows folderPath = (done ++ (path, data) :: rest)%list /\
              e = StorageError op /\
              interrupts op done path data /\
              modified (history st') =
                (modified (history st) ++ done ++ writeOf op)%list /\
              (files (vault st') = applyWrites done (files (vault st)) \/
               applyWrites done (files (vault st)) !! path = None /\
               files (vault st') =
                 <[path := EmptyString]> (applyWrites done (files (vault st)))) /\
              (forall written content,
                 lastWrite done written = Some content ->
                 files (vault st') !! written = Some content)).
  { intros [Hsame Hmod] (op & -> & Hop).
    apply (interrupts_folderCall _ path0 data0) in Hop as [Hint Hw].
    exists [], path0, data0, rest0, op.
    split; [exact Hfirst |]. split; [reflexivity |]. split; [exact Hint |].
    split; [rewrite Hw, Hmod, !app_nil_r; reflexivity |].
    split; [left; exact Hsame | discriminate]. }
  pose proof (foldersExist_keepsWrites (moviesFolder folderPath)
                (showsFolder folderPath) st) as K0.
  apply bind_Throw_inv in Hrun as [Hp | ([e0 e1] & s1 & Hp & Hrun)];
    rewrite Hp in K0; simpl in K0;
    [apply Hearly; [exact K0 | eapply foldersExist_Throw; exact Hp] |].
  pose proof (ensureFolder_keepsWrites e0 (showsFolder folderPath) s1) as K1.
  apply bind_Throw_inv in Hrun as [Hs | ([] & s2 & Hs & Hrun)];
    simpl in Hs; rewrite Hs in K1; simpl in K1;
    [apply Hearly;
     [eapply keepsWrites_trans; eassumption
     | eapply ensureFolder_Throw; exact Hs] |].
  pose proof (ensureFolder_keepsWrites e1 (moviesFolder folderPath) s2) as K2.
  apply bind_Throw_inv in Hrun as [Hm | ([] & s3 & Hm & Hrun)];
    simpl in Hm; rewrite Hm in K2; simpl in K2;
    [apply Hearly;
     [eapply keepsWrites_trans; [eapply keepsWrites_trans |]; eassumption
     | eapply ensureFolder_Throw; exact Hm] |].
  assert (Hkeep : keepsWrites st s3).
  { eapply keepsWrites_trans; [eapply keepsWrites_trans |]; eassumption. }
  destruct Hkeep as [Hkf Hkm].
  clear Hearly.
  assert (Hlast : forall done path fs',
            (fs' = applyWrites done (files (vault st)) \/
             applyWrites done (files (vault st)) !! path = None /\
             fs' = <[path := EmptyString]> (applyWrites done (files (vault st)))) ->
            forall written content,
              lastWrite done written = Some content ->
              fs' !! written = Some content).
  { intros done path fs' Hfs written content Hl.
    assert (Hw : applyWrites done (files (vault st)) !! written = Some content).
    { rewrite applyWrites_lookup, Hl. reflexivity. }
    destruct Hfs as [-> | [Hnone ->]]; [exact Hw |].
    rewrite lookup_insert_ne; [exact Hw |]. congruence. }
  apply bind_Throw_inv in Hrun as [Hloop | ([] & s4 & Hloop & Hwatch)].
  - apply for_each_writeNote_Throw in Hloop
      as (done & show & rest & op & -> & -> & Hop & Hmod & Hfiles).
    simpl in Hfiles. rewrite Hkf in Hfiles. rewrite Hkm in Hmod.
    unfold syncWrites. rewrite map_app, <- app_assoc. simpl.
    eexists _, _, _, _, op. split; [reflexivity |].
    split; [reflexivity |].
    split; [destruct Hop as [-> | ->]; simpl; auto |].
    split; [exact Hmod |].
    split; [exact Hfiles |].
    eapply Hlast. exact Hfiles.
  - apply for_each_writeNote_Ret in Hloop as (Hf & _ & _ & Hmod).
    rewrite updateWatchFile_upsert in Hwatch.
    apply upsert_Throw in Hwatch as (op & -> & Hop & Hm5 & Hfiles).
    rewrite Hf, Hkf in Hfiles. rewrite Hmod, Hkm, <- app_assoc in Hm5.
    unfold syncWrites. eexists _, _, _, [], op. split; [reflexivity |].
    split; [reflexivity |].
    split; [destruct Hop as [-> | ->]; simpl; auto |].
    split; [exact Hm5 |].
    split; [exact Hfiles |].
    eapply Hlast. exact Hfiles.
Qed.
End Interrupted.

(** ** What a run may change *)

Lemma changedByWrites_refl st : changedByWrites st st.
Proof. exists []. split; [reflexivity | auto]. Qed.

Lemma changedByWrites_trans a b c :
  changedByWrites a b -> changedByWrites b c -> changedByWrites a c.
Proof.
  intros (l1 & Hh1 & Hf1) (l2 & Hh2 & Hf2). exists (l2 ++ l1)%list.
  split; [rewrite Hh2, Hh1, app_assoc; reflexivity |].
  intros path. destruct (Hf2 path) as [Heq | (data & Hd & Hin)].
  - rewrite Heq. destruct (Hf1 path) as [? | (data & Hd & Hin)]; [auto |].
    right. exists data. split; [exact Hd |].
    destruct Hin; [left | right]; apply in_or_app; auto.
  - right. exists data. split; [exact Hd |].
    destruct Hin; [left | right]; apply in_or_app; auto.
Qed.

Lemma changedByWrites_issue op st : changedByWrites st (issue op st).
Proof. exists [op]. split; [reflexivity | auto]. Qed.

Lemma changedByWrites_printed line st : changedByWrites st (printed line st).
Proof. exists []. split; [reflexivity | auto]. Qed.

Lemma changedByWrites_mkdir op path st :
  changedByWrites st (withVault (vault_mkdir path (vault st)) (issue op st)).
Proof. exists [op]. split; [reflexivity | auto]. Qed.

Lemma changedByWrites_write op path data st :
  op = OpCreate path data \/ op = OpModify path data ->
  changedByWrites st (withVault (vault_write path data (vault st)) (issue op st)).
Proof.
  intros Hop. exists [op]. split; [reflexivity |]. intros q. simpl.
  destruct (decide (path = q)) as [<- | Hne].
  - right. exists data. rewrite lookup_insert_eq. split; [reflexivity |].
    destruct Hop as [-> | ->]; [left | right]; left; reflexivity.
  - left. apply lookup_insert_ne. exact Hne.
Qed.

Section Frame.
Context `{Host}.

Ltac frame_call :=
  host_call;
  first [ apply changedByWrites_refl
        | apply changedByWrites_issue
        | apply changedByWrites_mkdir
        | apply changedByWrites_write; auto ].

Lemma checkFeed_changedByWrites settings fuel url :
  preserves changedByWrites (checkFeed settings fuel url).
Proof.
  apply preserves_checkFeed.
  - apply changedByWrites_refl.
  - apply changedByWrites_trans.
  - intros path. frame_call.
  - intros path. frame_call.
  - intros path data. frame_call.
  - intros [path | path] data; frame_call.
  - intros line st. apply changedByWrites_printed.
  - intros url'. frame_call.
  - intros response. frame_call.
Qed.

Lemma updateWatchlist_changedByWrites shows folderPath :
  preserves changedByWrites (updateWatchlist shows folderPath).
Proof.
  apply preserves_updateWatchlist.
  - apply changedByWrites_refl.
  - apply changedByWrites_trans.
  - intros path. frame_call.
  - intros path. frame_call.
  - intros path data. frame_call.
  - intros [path | path] data; frame_call.
  - intros line st. apply changedByWrites_printed.
Qed.
End Frame.

(** ** The paginating fetcher *)

Section Fetcher.
Context `{Host}.
Variable settings : PlexWatchlistSettings.

Lemma js_or_Some url dflt : truthy url = true -> js_or (Some url) dflt = url.
Proof. unfold js_or. intros ->. reflexivity. Qed.

Lemma checkFeed_unfold fuel url :
  checkFeed settings fuel url =
  if truthy (js_or url (feedUrl settings)) then
    try_catch
      (checkFeed_try settings (followPage settings fuel)
         (js_or url (feedUrl settings)))
      (fun error => print (Error_feed error))
  else ret tt.
Proof. destruct fuel; reflexivity. Qed.

(** No exception leaves [checkFeed]: it returns, or is still pending when
    the page budget is used up. *)
Lemma checkFeed_outcome fuel url st :
  fst (checkFeed settings fuel url st) = Ret tt \/
  fst (checkFeed settings fuel url st) = Pending.
Proof.
  rewrite checkFeed_unfold. destruct (truthy _); [| left; reflexivity].
  unfold try_catch.
  destruct (checkFeed_try _ _ _ st) as [[[] | e |] st']; simpl; auto.
Qed.

Lemma followPage_outcome fuel next st :
  fst (followPage settings fuel next st) = Ret tt \/
  fst (followPage settings fuel next st) = Pending.
Proof.
  destruct fuel; simpl; [right; reflexivity | apply checkFeed_outcome].
Qed.

(** An exception raised in the guarded block of [checkFeed] is printed, and
    the state is otherwise the one the block left. *)
Lemma checkFeed_catches fuel url st e st' :
  truthy url = true ->
  checkFeed_try settings (followPage settings fuel) url st = (Throw e, st') ->
  checkFeed settings fuel (Some url) st = (Ret tt, printed (Error_feed e) st').
Proof.
  intros Hurl Hbody. rewrite checkFeed_unfold, (js_or_Some _ _ Hurl), Hurl.
  unfold try_catch. rewrite Hbody. reflexivity.
Qed.

Lemma updateWatchlist_catches shows folderPath st e st' :
  updateWatchlist_try shows folderPath st = (Throw e, st') ->
  updateWatchlist shows folderPath st =
  (Ret tt, printed (Error_watchlist e) st').
Proof. intros Hbody. unfold updateWatchlist, try_catch. rewrite Hbody. reflexivity. Qed.

(** What follows the flush of a page (lines 111-119). *)
Lemma checkFeed_try_pages recur url st :
  checkFeed_try settings recur url st =
  (response <- fetch url ;;
   text <- response_text response ;;
   print (Log_itemCount
            (length (docQuerySelectorAll sel_item (parseFromString text)))) ;;
   updateWatchlist (entriesOf text) (folderPath settings) ;;
   match nextUrlOf text with
   | Some nextUrl => print (Log_nextUrl nextUrl) ;; recur nextUrl
   | None => ret tt
   end) st.
Proof.
  unfold checkFeed_try, nextUrlOf, entriesOf.
  unfold bind at 1 6. destruct (fetch url st) as [[response | e |] st1]; auto.
  unfold bind at 1 5.
  destruct (response_text response st1) as [[text | e |] st2]; auto.
  unfold bind at 1 4. destruct (print _ st2) as [[[] | e |] st3]; auto.
  unfold bind at 1 3.
  destruct (updateWatchlist _ _ st3) as [[[] | e |] st4]; auto.
  destruct (docQuerySelector sel_next (parseFromString text)) as [nextLink |];
    [| reflexivity].
  destruct (getAttribute "href" nextLink) as [nextUrl |]; [| reflexivity].
  destruct (truthy nextUrl); reflexivity.
Qed.

Lemma nextUrlOf_truthy markup next :
  nextUrlOf markup = Some next -> truthy next = true.
Proof.
  unfold nextUrlOf.
  destruct (docQuerySelector _ _) as [nextLink |]; [| discriminate].
  destruct (getAttribute _ _) as [nextUrl |]; [| discriminate].
  destruct (truthy nextUrl) eqn:E; [| discriminate].
  intros [= <-]. exact E.
Qed.

(** On a page whose download succeeds, [syncPage] returns. *)
Lemma syncPage_run url st :
  faulty (history st) (OpFetch url) = false ->
  faulty (OpFetch url :: history st) (OpText url) = false ->
  syncPage settings url st =
  updateWatchlist (entriesOf (body url)) (folderPath settings)
    (printed (Log_itemCount
                (length (docQuerySelectorAll sel_item (parseFromString (body url)))))
       (issue (OpText url) (issue (OpFetch url) st))).
Proof.
  intros Hf Ht. unfold syncPage, fetch, response_text, attempt, bind, ret, print.
  rewrite Hf. simpl. rewrite Ht. reflexivity.
Qed.

Lemma syncPage_returns url st :
  faulty (history st) (OpFetch url) = false ->
  faulty (OpFetch url :: history st) (OpText url) = false ->
  fst (syncPage settings url st) = Ret tt.
Proof.
  intros Hf Ht. rewrite (syncPage_run _ _ Hf Ht). apply updateWatchlist_returns.
Qed.

(** One page of [checkFeed] whose download succeeds: the page is flushed,
    then the next page, if any, is followed. *)
Lemma checkFeed_page fuel url st :
  truthy url = true ->
  faulty (history st) (OpFetch url) = false ->
  faulty (OpFetch url :: history st) (OpText url) = false ->
  checkFeed settings fuel (Some url) st =
  (syncPage settings url ;;
   match nextUrlOf (body url) with
   | Some nextUrl => print (Log_nextUrl nextUrl) ;; followPage settings fuel nextUrl
   | None => ret tt
   end) st.
Proof.
  intros Hurl Hf Ht. rewrite checkFeed_unfold, (js_or_Some _ _ Hurl), Hurl.
  unfold try_catch. rewrite checkFeed_try_pages.
  unfold syncPage, fetch, response_text, attempt, bind, ret, print.
  rewrite Hf. simpl. rewrite Ht. simpl.
  match goal with
  | |- context [updateWatchlist ?shows ?fp ?s] =>
      pose proof (updateWatchlist_returns shows fp s) as Hret;
      destruct (updateWatchlist shows fp s) as [[[] | e |] st1]
  end; try discriminate.
  destruct (nextUrlOf (body url)) as [next |]; [| reflexivity].
  pose proof (followPage_outcome fuel next (printed (Log_nextUrl next) st1)) as Hout.
  destruct (followPage settings fuel next _) as [[[] | e |] st2]; simpl in *;
    try reflexivity.
  destruct Hout; discriminate.
Qed.

(** A chain of pages that ends within the budget makes [checkFeed] return,
    whatever fails on the way. *)
Lemma checkFeed_returns fuel url st :
  chainEnds fuel url = true -> truthy url = true ->
  fst (checkFeed settings fuel (Some url) st) = Ret tt.
Proof.
  revert url st. induction fuel as [| fuel IH]; intros url st Hchain Hurl;
    rewrite checkFeed_unfold, (js_or_Some _ _ Hurl), Hurl;
    unfold try_catch; rewrite checkFeed_try_pages;
    unfold fetch, response_text, attempt, bind, ret, print;
    (destruct (faulty (history st) (OpFetch url)); simpl; [reflexivity |]);
    (destruct (faulty (OpFetch url :: history st) (OpText url)); simpl;
     [reflexivity |]);
    match goal with
    | |- context [updateWatchlist ?shows ?fp ?s] =>
        pose proof (updateWatchlist_returns shows fp s) as Hret;
        destruct (updateWatchlist shows fp s) as [[[] | e |] st1]
    end; try discriminate;
    simpl in Hchain;
    destruct (nextUrlOf (body url)) as [next |] eqn:Hnext; try reflexivity;
    try discriminate.
  simpl.
  pose proof (IH next (printed (Log_nextUrl next) st1) Hchain
                (nextUrlOf_truthy _ _ Hnext)) as Hrec.
  destruct (checkFeed settings fuel (Some next) _) as [[[] | e |] st2];
    simpl in *; try discriminate; reflexivity.
Qed.

(** Page 1 is flushed, then fetching page 2 rejects: the run returns, the
    rejection is printed, and the state is otherwise the one the flush of
    page 1 left. *)
Lemma checkFeed_second_page_down fuel url1 url2 st :
  truthy url1 = true ->
  faulty (history st) (OpFetch url1) = false ->
  faulty (OpFetch url1 :: history st) (OpText url1) = false ->
  nextUrlOf (body url1) = Some url2 ->
  (forall h, faulty h (OpFetch url2) = true) ->
  checkFeed settings (S fuel) (Some url1) st =
  (Ret tt,
   printed (Error_feed (NetworkError (OpFetch url2)))
     (issue (OpFetch url2)
        (printed (Log_nextUrl url2) (snd (syncPage settings url1 st))))).
Proof.
  intros Hurl Hf Ht Hnext Hdown.
  rewrite (checkFeed_page _ _ _ Hurl Hf Ht), Hnext.
  pose proof (syncPage_returns _ _ Hf Ht) as Hret.
  unfold bind at 1.
  destruct (syncPage settings url1 st) as [[[] | e |] st1]; try discriminate.
  unfold bind, print. simpl.
  rewrite checkFeed_unfold, (js_or_Some _ _ (nextUrlOf_truthy _ _ Hnext)),
    (nextUrlOf_truthy _ _ Hnext).
  unfold try_catch. rewrite checkFeed_try_pages.
  unfold fetch, attempt, bind. rewrite Hdown. reflexivity.
Qed.

(** A page whose download succeeded and whose flush printed no error: the
    file store is the one the page's content writes leave. *)
Lemma syncPage_quiet_files url st :
  faulty (history st) (OpFetch url) = false ->
  faulty (OpFetch url :: history st) (OpText url) = false ->
  console (snd (syncPage settings url st)) =
    Log_itemCount
      (length (docQuerySelectorAll sel_item (parseFromString (body url)))) ::
    console st ->
  files (vault (snd (syncPage settings url st))) =
  applyWrites (syncWrites (entriesOf (body url)) (folderPath settings))
    (files (vault st)).
Proof.
  intros Hf Ht. rewrite (syncPage_run _ _ Hf Ht). intros Hquiet.
  apply updateWatchlist_quiet in Hquiet.
  apply updateWatchlist_try_Ret in Hquiet as (Hfiles & _).
  rewrite Hfiles. reflexivity.
Qed.

(** Containment of failures. Every exception raised inside a run (a rejected
    fetch or body read, a rejected vault call) is caught by the block it
    occurs in and printed; [updateWatchlist] always returns, [checkFeed]
    never throws and returns whenever the chain of pages ends.

    What was written stays written. When the block of [updateWatchlist]
    throws, the rejected call splits its content writes: those before it
    were issued and are in effect, so that every path written holds what was
    last written to it; the one it belongs to was issued only when it is the
    rejected call; none after it was issued; the path the block stopped at
    holds what it held, or a new empty file when it held nothing. Over a
    whole run nothing is removed from the vault, and a file changes only by
    receiving the content of a create or modify call of the run. When page 1
    was flushed and the fetch of page 2 rejects, the run ends with the vault
    that flush left: when the flush printed no error, with every content
    write of page 1 in effect. *)
Theorem failures_contained fuel url shows root st :
  fst (updateWatchlist shows root st) = Ret tt /\
  (fst (checkFeed settings fuel url st) = Ret tt \/
   fst (checkFeed settings fuel url st) = Pending) /\
  (chainEnds fuel (js_or url (feedUrl settings)) = true ->
   fst (checkFeed settings fuel url st) = Ret tt) /\
  (forall e st',
     updateWatchlist_try shows root st = (Throw e, st') ->
     updateWatchlist shows root st = (Ret tt, printed (Error_watchlist e) st')) /\
  (forall page e st',
     truthy page = true ->
     checkFeed_try settings (followPage settings fuel) page st = (Throw e, st') ->
     checkFeed settings fuel (Some page) st = (Ret tt, printed (Error_feed e) st')) /\
  (forall e st',
     updateWatchlist_try shows root st = (Throw e, st') ->
     exists done path data rest op,
       syncWrites shows root = (done ++ (path, data) :: rest)%list /\
       e = StorageError op /\
       interrupts op done path data /\
       modified (history st') =
         (modified (history st) ++ done ++ writeOf op)%list /\
       (files (vault st') = applyWrites done (files (vault st)) \/
        applyWrites done (files (vault st)) !! path = None /\
        files (vault st') =
          <[path := EmptyString]> (applyWrites done (files (vault st)))) /\
       (forall written content,
          lastWrite done written = Some content ->
          files (vault (snd (updateWatchlist shows root st))) !! written =
            Some content)) /\
  vaultGrows (vault st) (vault (snd (updateWatchlist shows root st))) /\
  vaultGrows (vault st) (vault (snd (checkFeed settings fuel url st))) /\
  changedByWrites st (snd (updateWatchlist shows root st)) /\
  changedByWrites st (snd (checkFeed settings fuel url st)) /\
  (forall url1 url2,
     truthy url1 = true ->
     faulty (history st) (OpFetch url1) = false ->
     faulty (OpFetch url1 :: history st) (OpText url1) = false ->
     nextUrlOf (body url1) = Some url2 ->
     (forall h, faulty h (OpFetch url2) = true) ->
     let st' := snd (checkFeed settings (S fuel) (Some url1) st) in
     fst (checkFeed settings (S fuel) (Some url1) st) = Ret tt /\
     vault st' = vault (snd (syncPage settings url1 st)) /\
     console st' =
       Error_feed (NetworkError (OpFetch url2)) :: Log_nextUrl url2 ::
       console (snd (syncPage settings url1 st)) /\
     (console (snd (syncPage settings url1 st)) =
        Log_itemCount
          (length (docQuerySelectorAll sel_item (parseFromString (body url1)))) ::
        console st ->
      files (vault st') =
        applyWrites (syncWrites (entriesOf (body url1)) (folderPath settings))
          (files (vault st)))).
Proof.
  split; [apply updateWatchlist_returns |].
  split; [apply checkFeed_outcome |].
  split.
  { intros Hchain. rewrite checkFeed_unfold.
    destruct (truthy (js_or url (feedUrl settings))) eqn:Hurl; [| reflexivity].
    pose proof (checkFeed_returns fuel _ st Hchain Hurl) as Hret.
    rewrite checkFeed_unfold, (js_or_Some _ _ Hurl), Hurl in Hret. exact Hret. }
  split; [intros e st'; apply updateWatchlist_catches |].
  split; [intros page e st'; apply checkFeed_catches |].
  split.
  { intros e st' Hrun.
    rewrite (updateWatchlist_catches _ _ _ _ _ Hrun). simpl.
    apply updateWatchlist_try_Throw. exact Hrun. }
  split; [apply updateWatchlist_keepsVault |].
  split; [apply checkFeed_keepsVault |].
  split; [apply updateWatchlist_changedByWrites |].
  split; [apply checkFeed_changedByWrites |].
  intros url1 url2 Hurl Hf Ht Hnext Hdown st'. subst st'.
  rewrite (checkFeed_second_page_down _ _ _ _ Hurl Hf Ht Hnext Hdown).
  repeat split. simpl. apply syncPage_quiet_files; assumption.
Qed.
End Fetcher.

Lemma bind_ext {A B} (m : M A) (k k' : A -> M B) st :
  (forall a s, k a s = k' a s) -> bind m k st = bind m k' st.
Proof.
  intros Hk. unfold bind. destruct (m st) as [[a | e |] st1]; auto.
Qed.

Lemma bind_ret_tt (m : M unit) st : bind m (fun _ => ret tt) st = m st.
Proof.
  unfold bind, ret. destruct (m st) as [[[] | e |] st1]; reflexivity.
Qed.

Lemma errorCount_cons line c :
  errorCount (line :: c) = (if isError line then S (errorCount c) else errorCount c).
Proof. unfold errorCount. simpl. destruct (isError line); reflexivity. Qed.

Section Pagination.
Context `{Host}.
Variable settings : PlexWatchlistSettings.
Hypothesis fetch_ok : forall h u, faulty h (OpFetch u) = false.
Hypothesis text_ok : forall h u, faulty h (OpText u) = false.

(** The flush of a page, seen from the console: either the block of
    [updateWatchlist] completed and the page's writes were applied in order,
    or one more error line was printed. *)
Lemma syncPage_cases url st :
  let st' := snd (syncPage settings url st) in
  let writes := syncWrites (entriesOf (body url)) (folderPath settings) in
  fetched (history st') = (fetched (history st) ++ [url])%list /\
  errorCount (console st) <= errorCount (console st') /\
  (errorCount (console st') = errorCount (console st) ->
   modified (history st') = (modified (history st) ++ writes)%list /\
   files (vault st') = applyWrites writes (files (vault st))).
Proof.
  intros st' writes. subst st'.
  rewrite (syncPage_run settings url st (fetch_ok _ _) (text_ok _ _)).
  remember (printed _ _) as pre eqn:Epre.
  assert (Hpre : fetched (history pre) = (fetched (history st) ++ [url])%list /\
                 errorCount (console pre) = errorCount (console st) /\
                 modified (history pre) = modified (history st) /\
                 vault pre = vault st).
  { subst pre. simpl. rewrite !fetched_cons, !modified_cons, errorCount_cons.
    simpl. rewrite !app_nil_r. auto. }
  clear Epre. destruct Hpre as (Hfe & Hec & Hmo & Hva).
  pose proof (updateWatchlist_keepsFetched
                (entriesOf (body url)) (folderPath settings) pre) as Hkf.
  unfold keepsFetched in Hkf. rewrite Hkf, Hfe. split; [reflexivity |].
  destruct (updateWatchlist_cases (entriesOf (body url)) (folderPath settings) pre)
    as [(st' & Htry & ->) | (e & st' & Htry & ->)]; simpl.
  - apply updateWatchlist_try_Ret in Htry as (Hf & _ & Hc & Hm).
    rewrite Hc, Hec, Hm, Hmo, Hf, Hva. auto.
  - pose proof (updateWatchlist_try_keepsConsole
                  (entriesOf (body url)) (folderPath settings) pre) as Hkc.
    unfold keepsConsole in Hkc. rewrite Htry in Hkc. simpl in Hkc.
    rewrite errorCount_cons, Hkc, Hec. simpl. split; [lia |]. lia.
Qed.

(** C2. On a feed whose pages chain from the configured URL to a second and
    a third page, the third carrying no next link, and whose downloads
    succeed, [checkFeed] runs the three pages in order, each one fetched,
    parsed and flushed to the vault by [updateWatchlist] before the next is
    fetched; it returns, it has fetched exactly the three URLs in that
    order, and when no flush printed an error the content writes of the run
    are those of the entries of page 1, page 2 and page 3 in feed order
    (each page followed by the index note). *)
Theorem checkFeed_three_pages fuel st url2 url3 :
  truthy (feedUrl settings) = true ->
  nextUrlOf (body (feedUrl settings)) = Some url2 ->
  nextUrlOf (body url2) = Some url3 ->
  nextUrlOf (body url3) = None ->
  let url1 := feedUrl settings in
  let root := folderPath settings in
  let writes := (syncWrites (entriesOf (body url1)) root ++
                 syncWrites (entriesOf (body url2)) root ++
                 syncWrites (entriesOf (body url3)) root)%list in
  let run := checkFeed settings (S (S fuel)) None st in
  run = (syncPage settings url1 ;; print (Log_nextUrl url2) ;;
         syncPage settings url2 ;; print (Log_nextUrl url3) ;;
         syncPage settings url3) st /\
  fst run = Ret tt /\
  fetched (history (snd run)) = (fetched (history st) ++ [url1; url2; url3])%list /\
  (errorCount (console (snd run)) = errorCount (console st) ->
   modified (history (snd run)) = (modified (history st) ++ writes)%list /\
   files (vault (snd run)) = applyWrites writes (files (vault st))).
Proof.
  intros Hurl1 Hn1 Hn2 Hn3. cbv zeta.
  pose proof (nextUrlOf_truthy _ _ Hn1) as Hurl2.
  pose proof (nextUrlOf_truthy _ _ Hn2) as Hurl3.
  assert (Hrun : checkFeed settings (S (S fuel)) None st =
            (syncPage settings (feedUrl settings) ;; print (Log_nextUrl url2) ;;
             syncPage settings url2 ;; print (Log_nextUrl url3) ;;
             syncPage settings url3) st).
  { transitivity (checkFeed settings (S (S fuel)) (Some (feedUrl settings)) st).
    { rewrite !checkFeed_unfold, (js_or_Some _ _ Hurl1). reflexivity. }
    rewrite (checkFeed_page settings _ _ _ Hurl1 (fetch_ok _ _) (text_ok _ _)).
    rewrite Hn1.
    apply bind_ext. intros _ s1. apply bind_ext. intros _ s2. unfold followPage.
    rewrite (checkFeed_page settings _ _ _ Hurl2 (fetch_ok _ _) (text_ok _ _)).
    rewrite Hn2.
    apply bind_ext. intros _ s3. apply bind_ext. intros _ s4. unfold followPage.
    rewrite (checkFeed_page settings _ _ _ Hurl3 (fetch_ok _ _) (text_ok _ _)).
    rewrite Hn3. apply bind_ret_tt. }
  split; [exact Hrun |].
  rewrite Hrun. clear Hrun.
  destruct (syncPage settings (feedUrl settings) st) as [r1 a1] eqn:S1.
  pose proof (syncPage_returns settings (feedUrl settings) st
                (fetch_ok _ _) (text_ok _ _)) as R1.
  pose proof (syncPage_cases (feedUrl settings) st) as (F1 & E1 & W1).
  rewrite S1 in R1, F1, E1, W1. simpl in R1. subst r1.
  remember (printed (Log_nextUrl url2) a1) as b1 eqn:Eb1.
  destruct (syncPage settings url2 b1) as [r2 a2] eqn:S2.
  pose proof (syncPage_returns settings url2 b1 (fetch_ok _ _) (text_ok _ _)) as R2.
  pose proof (syncPage_cases url2 b1) as (F2 & E2 & W2).
  rewrite S2 in R2, F2, E2, W2. simpl in R2. subst r2.
  remember (printed (Log_nextUrl url3) a2) as b2 eqn:Eb2.
  destruct (syncPage settings url3 b2) as [r3 a3] eqn:S3.
  pose proof (syncPage_returns settings url3 b2 (fetch_ok _ _) (text_ok _ _)) as R3.
  pose proof (syncPage_cases url3 b2) as (F3 & E3 & W3).
  rewrite S3 in R3, F3, E3, W3. simpl in R3. subst r3.
  assert (Hres : (syncPage settings (feedUrl settings) ;;
                  print (Log_nextUrl url2) ;; syncPage settings url2 ;;
                  print (Log_nextUrl url3) ;; syncPage settings url3) st =
                 (Ret tt, a3)).
  { unfold bind, print. rewrite S1, <- Eb1, S2, <- Eb2, S3. reflexivity. }
  rewrite Hres. clear Hres S1 S2 S3.
  subst b1 b2. simpl in *.
  split; [reflexivity |]. split.
  - rewrite F3, F2, F1, <- !app_assoc. reflexivity.
  - intros Hquiet.
    rewrite errorCount_cons in E2, E3, W2, W3. simpl in *.
    destruct W3 as [M3 V3]; [lia |].
    destruct W2 as [M2 V2]; [lia |].
    destruct W1 as [M1 V1]; [lia |].
    rewrite M3, M2, M1, V3, V2, V1, !applyWrites_app, <- !app_assoc.
    split; reflexivity.
Qed.
End Pagination.

(** ** Unconfigured plugin *)

(** C5, as the code has it. With an empty feed URL a triggered sync (a call
    of [checkFeed] without argument, or with an empty one) does nothing:
    it returns at once and leaves the vault, the console and the list of
    host calls as they were, whatever the root folder path is. *)
Theorem checkFeed_unconfigured `{Host} settings fuel st :
  feedUrl settings = EmptyString ->
  checkFeed settings fuel None st = (Ret tt, st) /\
  checkFeed settings fuel (Some EmptyString) st = (Ret tt, st).
Proof.
  intros Hurl. rewrite !checkFeed_unfold. unfold js_or. rewrite Hurl.
  split; reflexivity.
Qed.

(** ** Runs on the sample host *)

(** The classification examples of the specification. *)
Example classify_examples :
  let entry c :=
    mkShow "Heat" EmptyString EmptyString EmptyString c (Some EmptyString)
      EmptyString EmptyString EmptyString NaN in
  classify (entry "Movie") = Movie /\
  classify (entry EmptyString) = Series /\
  classify (entry "Sitcom") = Series.
Proof. repeat split. Qed.

(** Sanitizing a title that holds each of the nine characters. *)
Example sanitize_example :
  sanitize ("a/b\c?d<e>f:g*h|i" +:+ DQ +:+ "j") = "a_b_c_d_e_f_g_h_i_j".
Proof. reflexivity. Qed.

(** Witness for [checkFeed_unconfigured]: the default settings. *)
Lemma checkFeed_unconfigured_default :
  feedUrl DEFAULT_SETTINGS = EmptyString /\
  checkFeed (H := Sample.reliable) DEFAULT_SETTINGS 0 None Sample.fresh =
    (Ret tt, Sample.fresh).
Proof.
  split; [reflexivity |].
  apply (checkFeed_unconfigured (H := Sample.reliable) DEFAULT_SETTINGS 0
           Sample.fresh).
  reflexivity.
Defined.

(** C5 as stated fails: with a feed URL and an empty root folder path the
    sync is not a no-op. The feed is fetched, and the folders, the note and
    the index are created at the top of the vault. *)
Lemma empty_folderPath_syncs :
  let settings := {| feedUrl := Sample.url3; folderPath := EmptyString |} in
  let st' := snd (checkFeed (H := Sample.reliable) settings 0 None Sample.fresh) in
  folderPath settings = EmptyString /\
  fetched (history st') = [Sample.url3] /\
  bool_decide ("shows" ∈ folders (vault st')) = true /\
  bool_decide ("movies" ∈ folders (vault st')) = true /\
  List.map fst (map_to_list (files (vault st'))) =
    ["watch.md"; "shows/What If..._.md"] /\
  vault st' <> vault Sample.fresh.
Proof.
  vm_compute. repeat split. intros [= Hd Hf].
Qed.

(** C1, the code at the failing input: a body that is not XML is a parse
    failure, reported by the parser inside the document it returns; the run
    returns and prints no error line, so the failure is neither caught nor
    logged. *)
Lemma parse_failure_not_printed :
  let run := checkFeed (H := Sample.reliable) (Sample.plex Sample.urlBroken)
               3 None Sample.fresh in
  isParserError (parseFromString (Host := Sample.reliable)
                   (body (Host := Sample.reliable) Sample.urlBroken)) = true /\
  fst run = Ret tt /\
  errorCount (console (snd run)) = 0.
Proof. vm_compute. repeat split. Qed.

(** C6, the code at the failing input: the body served is not XML; the run
    surfaces no error, counts zero items, and goes on to synchronise the
    vault with an empty entry list (folders created, index note written). *)
Lemma unparseable_markup_is_synced :
  let run := checkFeed (H := Sample.reliable) (Sample.plex Sample.urlBroken)
               3 None Sample.fresh in
  isParserError (Sample.parse Sample.markupBroken) = true /\
  run =
    updateWatchlist (H := Sample.reliable) [] "plex"
      (printed (Log_itemCount 0)
         (issue (OpText Sample.urlBroken)
            (issue (OpFetch Sample.urlBroken) Sample.fresh))) /\
  console (snd run) = [Log_itemCount 0] /\
  history (snd run) =
    [OpModify "plex/watch.md" watchFileContent;
     OpCreate "plex/watch.md" EmptyString;
     OpCreateFolder "plex/movies"; OpCreateFolder "plex/shows";
     OpExists "plex/movies"; OpExists "plex/shows";
     OpText Sample.urlBroken; OpFetch Sample.urlBroken].
Proof. vm_compute. repeat split. Qed.

(** C4, the code at the failing input: an item whose thumbnail element has
    no url attribute yields an entry whose poster is null, and the note
    written for it carries the word null. *)
Lemma poster_null_is_rendered :
  let show := parseItem (H := Sample.reliable) Sample.heat in
  let run := checkFeed (H := Sample.reliable) (Sample.plex Sample.urlNoPoster)
               0 None Sample.fresh in
  querySelector sel_thumbnail Sample.heat = Some (Element "thumbnail" [] []) /\
  poster show = None /\
  contains (noteContent show) ("poster: null" +:+ LF) = true /\
  files (vault (snd run)) !! "plex/movies/Heat.md" = Some (noteContent show).
Proof. vm_compute. repeat split. Qed.

(** C7 as stated fails for the query: with root path media, the movies
    folder of the run is media/movies, and the index note written by a
    successful run does not mention it; it queries plex/movies. *)
Lemma watchFile_query_is_fixed :
  let st' := snd (updateWatchlist (H := Sample.reliable) [] "media" Sample.fresh) in
  console st' = [] /\
  moviesFolder (H := Sample.reliable) "media" = "media/movies" /\
  files (vault st') !! watchFilePath (H := Sample.reliable) "media" =
    Some watchFileContent /\
  contains watchFileContent "media/movies" = false /\
  contains watchFileContent "plex/movies" = true.
Proof. vm_compute. repeat split. Qed.

(** Witness for [watchFile_regenerated]. *)
Lemma watchFile_regenerated_sample :
  let st' := snd (updateWatchlist (H := Sample.reliable) [] "media" Sample.fresh) in
  console st' = console Sample.fresh /\
  files (vault st') !! "media/watch.md" = Some watchFileContent.
Proof.
  intros st'.
  assert (Hq : console st' = console Sample.fresh) by (vm_compute; reflexivity).
  split; [exact Hq |].
  exact (proj1 (watchFile_regenerated (H := Sample.reliable) [] "media"
                  Sample.fresh Hq)).
Defined.

(** Witness for [updateWatchlist_last_write_wins]: two titles that sanitize
    to the same file name; the note holds the later entry. *)
Lemma updateWatchlist_last_write_wins_sample :
  let entry t :=
    mkShow t EmptyString EmptyString EmptyString "movie" (Some EmptyString)
      EmptyString EmptyString EmptyString NaN in
  let shows := [entry "Face:Off"; entry "Face/Off"] in
  let st' := snd (updateWatchlist (H := Sample.reliable) shows "plex" Sample.fresh) in
  console st' = console Sample.fresh /\
  files (vault st') !! "plex/movies/Face_Off.md" =
    Some (noteContent (entry "Face/Off")).
Proof.
  intros entry shows st'.
  assert (Hq : console st' = console Sample.fresh) by (vm_compute; reflexivity).
  split; [exact Hq |].
  exact (updateWatchlist_last_write_wins (H := Sample.reliable) shows "plex"
           Sample.fresh "plex/movies/Face_Off.md" Hq).
Defined.

(** Witness for [updateWatchlist_no_entries]: the empty vault. *)
Lemma updateWatchlist_no_entries_sample :
  exists st',
    updateWatchlist (H := Sample.reliable) [] "plex" Sample.fresh = (Ret tt, st') /\
    console st' = [] /\
    folders (vault st') =
      missingFolders (H := Sample.reliable) (vault Sample.fresh) "plex" ∪ ∅ /\
    vault_exists (vault st') "plex/shows" = true /\
    vault_exists (vault st') "plex/movies" = true /\
    files (vault st') = <["plex/watch.md" := watchFileContent]> ∅.
Proof.
  apply (updateWatchlist_no_entries (H := Sample.reliable) "plex" Sample.fresh).
  - intros h op. reflexivity.
  - vm_compute. discriminate.
  - vm_compute. discriminate.
  - vm_compute. discriminate.
  - simpl. apply not_elem_of_empty.
Defined.

(** Witness for [updateWatchlist_twice]: the entries of the first sample
    page, synchronised twice into the empty vault. *)
Lemma updateWatchlist_twice_sample :
  let shows := entriesOf (H := Sample.reliable) Sample.markup1 in
  let st1 := snd (updateWatchlist (H := Sample.reliable) shows "plex" Sample.fresh) in
  let st2 := snd (updateWatchlist (H := Sample.reliable) shows "plex" st1) in
  console st1 = [] /\ console st2 = [] /\
  vault st2 = vault st1 /\
  List.filter isCreation (history st2) = List.filter isCreation (history st1).
Proof.
  intros shows st1 st2.
  assert (H1 : console st1 = console Sample.fresh) by (vm_compute; reflexivity).
  assert (H2 : console st2 = console st1) by (vm_compute; reflexivity).
  split; [exact H1 |]. split; [rewrite H2; exact H1 |].
  exact (proj2 (updateWatchlist_twice (H := Sample.reliable) shows "plex"
                  Sample.fresh H1 H2)).
Defined.

(** Witness for [checkFeed_three_pages]: the three sample pages. *)
Lemma checkFeed_three_pages_sample :
  let settings := Sample.plex Sample.url1 in
  let run := checkFeed (H := Sample.reliable) settings 2 None Sample.fresh in
  nextUrlOf (H := Sample.reliable) Sample.markup1 = Some Sample.url2 /\
  nextUrlOf (H := Sample.reliable) Sample.markup2 = Some Sample.url3 /\
  nextUrlOf (H := Sample.reliable) Sample.markup3 = None /\
  fst run = Ret tt /\
  fetched (history (snd run)) = [Sample.url1; Sample.url2; Sample.url3] /\
  List.map fst (modified (history (snd run))) =
    ["plex/movies/Dune_ Part One.md"; "plex/shows/Severance.md"; "plex/watch.md";
     "plex/movies/Alien.md"; "plex/watch.md";
     "plex/shows/What If..._.md"; "plex/watch.md"].
Proof.
  intros settings run.
  assert (N1 : nextUrlOf (H := Sample.reliable)
                 (body (Host := Sample.reliable) (feedUrl settings)) =
               Some Sample.url2) by (vm_compute; reflexivity).
  assert (N2 : nextUrlOf (H := Sample.reliable)
                 (body (Host := Sample.reliable) Sample.url2) =
               Some Sample.url3) by (vm_compute; reflexivity).
  assert (N3 : nextUrlOf (H := Sample.reliable)
                 (body (Host := Sample.reliable) Sample.url3) = None)
    by (vm_compute; reflexivity).
  destruct (checkFeed_three_pages (H := Sample.reliable) settings
              (fun _ _ => eq_refl) (fun _ _ => eq_refl) 0 Sample.fresh
              Sample.url2 Sample.url3 eq_refl N1 N2 N3)
    as (_ & Hret & Hfetched & Hwrites).
  split; [exact N1 |]. split; [exact N2 |]. split; [exact N3 |].
  split; [exact Hret |]. split; [exact Hfetched |].
  destruct Hwrites as [Hmod _]; [vm_compute; reflexivity |].
  fold run in Hmod. rewrite Hmod. vm_compute. reflexivity.
Defined.

(** ** Following the chain of pages *)

Section Chain.
Context `{Host}.
Variable settings : PlexWatchlistSettings.
Hypothesis fetch_ok : forall h u, faulty h (OpFetch u) = false.
Hypothesis text_ok : forall h u, faulty h (OpText u) = false.

Lemma syncPage_Ret url st :
  exists st', syncPage settings url st = (Ret tt, st') /\
    fetched (history st') = (fetched (history st) ++ [url])%list.
Proof.
  pose proof (syncPage_returns settings url st (fetch_ok _ _) (text_ok _ _)) as Hret.
  pose proof (syncPage_cases settings fetch_ok text_ok url st) as (Hf & _).
  destruct (syncPage settings url st) as [r st']. simpl in *. subst r.
  exists st'. split; [reflexivity | exact Hf].
Qed.

(** With downloads that succeed, the run follows the next links from the
    start URL: it returns when the chain ends within the budget and is
    still pending otherwise, and it has fetched the pages of the chain,
    each once and in order, whatever the vault calls did. *)
Lemma checkFeed_follows_chain fuel url st :
  truthy url = true ->
  fst (checkFeed settings fuel (Some url) st) =
    (if chainEnds fuel url then Ret tt else Pending) /\
  fetched (history (snd (checkFeed settings fuel (Some url) st))) =
    (fetched (history st) ++ chainUrls fuel url)%list.
Proof.
  revert url st. induction fuel as [| fuel IH]; intros url st Hurl;
    rewrite (checkFeed_page settings _ _ _ Hurl (fetch_ok _ _) (text_ok _ _));
    destruct (syncPage_Ret url st) as (st1 & Hsync & Hf1);
    unfold bind; rewrite Hsync; simpl chainEnds; simpl chainUrls;
    destruct (nextUrlOf (body url)) as [next |] eqn:Hnext;
    unfold ret, print, followPage, pending, printed; cbn [fst snd history];
    try (rewrite Hf1; split; reflexivity).
  fold (printed (Log_nextUrl next) st1).
  destruct (IH next (printed (Log_nextUrl next) st1)
              (nextUrlOf_truthy _ _ Hnext)) as (Hout & Hfetched).
  destruct (checkFeed settings fuel (Some next) _) as [[[] | e |] st2];
    cbn [fst snd] in *; (split; [exact Hout |]);
    rewrite Hfetched; unfold printed; cbn [history];
    rewrite Hf1, <- app_assoc; reflexivity.
Qed.

(** The pages of a run.  With downloads that succeed, a run started with or
    without a URL follows the next links from its start URL: it returns
    exactly when the chain ends within the budget of further pages, and the
    URLs it has fetched are those of the chain, each once and in order,
    whatever the vault calls did. *)
Theorem checkFeed_fetches_the_chain fuel url st :
  let start := js_or url (feedUrl settings) in
  truthy start = true ->
  (fst (checkFeed settings fuel url st) = Ret tt <-> chainEnds fuel start = true) /\
  (fst (checkFeed settings fuel url st) = Pending <-> chainEnds fuel start = false) /\
  fetched (history (snd (checkFeed settings fuel url st))) =
    (fetched (history st) ++ chainUrls fuel start)%list.
Proof.
  intros start Hstart.
  assert (Hsame : checkFeed settings fuel url st =
                  checkFeed settings fuel (Some start) st).
  { rewrite !checkFeed_unfold, (js_or_Some _ _ Hstart). reflexivity. }
  rewrite Hsame.
  destruct (checkFeed_follows_chain fuel start st Hstart) as (Hout & Hfetched).
  rewrite Hout, Hfetched.
  destruct (chainEnds fuel start); repeat split; congruence.
Qed.

Lemma self_link_chain fuel url :
  nextUrlOf (body url) = Some url ->
  chainEnds fuel url = false /\ chainUrls fuel url = repeat url (S fuel).
Proof.
  intros Hself. induction fuel as [| fuel [IHe IHu]]; simpl; rewrite Hself.
  - split; reflexivity.
  - split; [exact IHe |]. rewrite IHu. reflexivity.
Qed.

(** No page cap.  On a feed whose page names itself as the next page the
    run does not return: whatever the budget of further pages, it is still
    pending when the budget is used up, having fetched the page once more
    than the budget. *)
Theorem self_linked_feed_never_returns fuel url st :
  truthy url = true ->
  nextUrlOf (body url) = Some url ->
  fst (checkFeed settings fuel (Some url) st) = Pending /\
  fetched (history (snd (checkFeed settings fuel (Some url) st))) =
    (fetched (history st) ++ repeat url (S fuel))%list.
Proof.
  intros Hurl Hself.
  destruct (checkFeed_follows_chain fuel url st Hurl) as (Hout & Hfetched).
  destruct (self_link_chain fuel url Hself) as (He & Hu).
  rewrite He in Hout. rewrite Hu in Hfetched. split; assumption.
Qed.

(** A flush that fails does not stop the pagination: when the guarded block
    of [updateWatchlist] throws on page 1, the error is printed and the
    run goes on with page 2 as it would have after a flush that worked. *)
Theorem pagination_survives_flush_failure fuel url1 url2 st e st' :
  truthy url1 = true ->
  nextUrlOf (body url1) = Some url2 ->
  updateWatchlist_try (entriesOf (body url1)) (folderPath settings)
    (printed (Log_itemCount
                (length (docQuerySelectorAll sel_item
                           (parseFromString (body url1)))))
       (issue (OpText url1) (issue (OpFetch url1) st))) = (Throw e, st') ->
  checkFeed settings (S fuel) (Some url1) st =
    checkFeed settings fuel (Some url2)
      (printed (Log_nextUrl url2) (printed (Error_watchlist e) st')) /\
  exists more,
    fetched (history (snd (checkFeed settings (S fuel) (Some url1) st))) =
    (fetched (history st) ++ url1 :: url2 :: more)%list.
Proof.
  intros Hurl Hnext Hthrow.
  assert (Hstep : checkFeed settings (S fuel) (Some url1) st =
            checkFeed settings fuel (Some url2)
              (printed (Log_nextUrl url2) (printed (Error_watchlist e) st'))).
  { rewrite (checkFeed_page settings _ _ _ Hurl (fetch_ok _ _) (text_ok _ _)).
    unfold bind at 1.
    rewrite (syncPage_run settings url1 st (fetch_ok _ _) (text_ok _ _)).
    rewrite (updateWatchlist_catches _ _ _ _ _ Hthrow), Hnext.
    reflexivity. }
  split; [exact Hstep |].
  pose proof (nextUrlOf_truthy _ _ Hnext) as Hurl2.
  destruct (checkFeed_follows_chain (S fuel) url1 st Hurl) as (_ & Hfetched).
  rewrite Hfetched. simpl. rewrite Hnext.
  destruct fuel; simpl; eauto.
Qed.
End Chain.

Section NoRetry.
Context `{Host}.
Variable settings : PlexWatchlistSettings.

(** No retry.  When the fetch of a page rejects, or the read of its body,
    the run ends there: the rejection is printed, no further host call is
    issued, and the vault is untouched by this page. *)
Theorem rejected_download_ends_run fuel url st :
  truthy url = true ->
  (faulty (history st) (OpFetch url) = true ->
   checkFeed settings fuel (Some url) st =
     (Ret tt,
      printed (Error_feed (NetworkError (OpFetch url)))
        (issue (OpFetch url) st))) /\
  (faulty (history st) (OpFetch url) = false ->
   faulty (OpFetch url :: history st) (OpText url) = true ->
   checkFeed settings fuel (Some url) st =
     (Ret tt,
      printed (Error_feed (NetworkError (OpText url)))
        (issue (OpText url) (issue (OpFetch url) st)))).
Proof.
  intros Hurl.
  split; [intros Hf | intros Hf Ht];
    rewrite checkFeed_unfold, (js_or_Some _ _ Hurl), Hurl;
    unfold try_catch; rewrite checkFeed_try_pages;
    unfold fetch, response_text, attempt, bind, ret;
    rewrite Hf; simpl; [| rewrite Ht]; reflexivity.
Qed.
End NoRetry.

(** ** Settings: loading, saving, editing *)

Lemma Object_assign_defaults (data : option (gmap string string)) :
  Object_assign ∅ [Some (settingsObject DEFAULT_SETTINGS); data] =
  default ∅ data ∪ settingsObject DEFAULT_SETTINGS.
Proof.
  unfold Object_assign. simpl. rewrite (right_id_L ∅ (∪)).
  destruct data as [o |]; simpl; [reflexivity |].
  rewrite (left_id_L ∅ (∪)). reflexivity.
Qed.

Lemma settingsObject_lookup (s : PlexWatchlistSettings) key :
  settingsObject s !! key =
  if String.eqb key "feedUrl" then Some (feedUrl s)
  else if String.eqb key "folderPath" then Some (folderPath s)
  else None.
Proof.
  unfold settingsObject.
  destruct (String.eqb_spec key "feedUrl") as [-> | Hf].
  - apply lookup_insert_eq.
  - rewrite lookup_insert_ne by congruence.
    destruct (String.eqb_spec key "folderPath") as [-> | Hp].
    + apply lookup_insert_eq.
    + rewrite lookup_insert_ne by congruence. apply lookup_empty.
Qed.

Section Settings.
Context `{PluginHost}.
Local Open Scope task_scope.

Lemma loadSettings_run app :
  loadSettings app =
  if dataFaulty (pluginCalls app) CallLoadData
  then (Rejected (DataError CallLoadData), called CallLoadData app)
  else (Fulfilled tt,
        withPlugin
          (mkPlugin (default ∅ (dataFile app) ∪ settingsObject DEFAULT_SETTINGS)
             (interval (plugin app)))
          (called CallLoadData app)).
Proof.
  unfold loadSettings, loadData, request, andThen.
  destruct (dataFaulty _ _); [reflexivity |]. cbv beta iota.
  rewrite Object_assign_defaults. reflexivity.
Qed.

Lemma saveSettings_run app :
  saveSettings app =
  let o := settings (plugin app) in
  if dataFaulty (pluginCalls app) (CallSaveData o)
  then (Rejected (DataError (CallSaveData o)), called (CallSaveData o) app)
  else (Fulfilled tt, withDataFile (Some o) (called (CallSaveData o) app)).
Proof.
  unfold saveSettings, getSettings, saveData, request, andThen. simpl.
  destruct (dataFaulty _ _); reflexivity.
Qed.

(** Loading merges the stored object over the defaults: a stored property
    wins, the two settings that are not stored are the empty string, so
    both are always defined afterwards; nothing else of the plugin or the
    application changes. *)
Theorem loadSettings_merges app :
  dataFaulty (pluginCalls app) CallLoadData = false ->
  exists app',
    loadSettings app = (Fulfilled tt, app') /\
    (forall key value,
       dataFile app ≫= (fun o => o !! key) = Some value ->
       settings (plugin app') !! key = Some value) /\
    (forall key,
       dataFile app ≫= (fun o => o !! key) = None ->
       settings (plugin app') !! key =
       settingsObject DEFAULT_SETTINGS !! key) /\
    is_Some (settings (plugin app') !! "feedUrl") /\
    is_Some (settings (plugin app') !! "folderPath") /\
    interval (plugin app') = interval (plugin app) /\
    dataFile app' = dataFile app /\ run app' = run app.
Proof.
  intros Hok. rewrite loadSettings_run, Hok. eexists. split; [reflexivity |].
  simpl.
  assert (Hsome : forall key value,
            dataFile app ≫= (fun o => o !! key) = Some value ->
            (default ∅ (dataFile app) ∪ settingsObject DEFAULT_SETTINGS) !! key =
            Some value).
  { intros key value Hv. apply lookup_union_Some_l.
    destruct (dataFile app); simpl in *; [exact Hv | discriminate]. }
  assert (Hnone : forall key,
            dataFile app ≫= (fun o => o !! key) = None ->
            (default ∅ (dataFile app) ∪ settingsObject DEFAULT_SETTINGS) !! key =
            settingsObject DEFAULT_SETTINGS !! key).
  { intros key Hn. apply lookup_union_r.
    destruct (dataFile app); simpl in *; [exact Hn | apply lookup_empty]. }
  assert (Hdef : forall key,
            is_Some (settingsObject DEFAULT_SETTINGS !! key) ->
            is_Some ((default ∅ (dataFile app) ∪ settingsObject DEFAULT_SETTINGS)
                       !! key)).
  { intros key Hd.
    destruct (dataFile app ≫= (fun o => o !! key)) as [v |] eqn:E.
    - rewrite (Hsome _ _ E). eauto.
    - rewrite (Hnone _ E). exact Hd. }
  repeat split; auto; apply Hdef; rewrite settingsObject_lookup; simpl; eauto.
Qed.

(** Saving then loading gives back the settings that were saved: stored
    properties win over the defaults, so settings that define both keys
    come back unchanged, and the data file holds them. *)
Theorem saveSettings_loadSettings app :
  let o := settings (plugin app) in
  is_Some (o !! "feedUrl") ->
  is_Some (o !! "folderPath") ->
  dataFaulty (pluginCalls app) (CallSaveData o) = false ->
  dataFaulty (CallSaveData o :: pluginCalls app) CallLoadData = false ->
  exists app',
    (saveSettings ;; loadSettings) app = (Fulfilled tt, app') /\
    settings (plugin app') = o /\
    dataFile app' = Some o /\
    readSettings (settings (plugin app')) = readSettings o.
Proof.
  intros o Hf Hp Hsave Hload. unfold andThen.
  rewrite saveSettings_run. fold o. cbv zeta. rewrite Hsave.
  rewrite loadSettings_run. simpl. rewrite Hload. eexists.
  split; [reflexivity |]. simpl.
  assert (Hsame : o ∪ settingsObject DEFAULT_SETTINGS = o).
  { apply map_eq. intros key.
    destruct (o !! key) as [v |] eqn:E.
    - apply lookup_union_Some_l. exact E.
    - rewrite lookup_union_r by exact E.
      rewrite settingsObject_lookup.
      destruct (String.eqb_spec key "feedUrl") as [-> | _];
        [rewrite E in Hf; destruct Hf; discriminate |].
      destruct (String.eqb_spec key "folderPath") as [-> | _];
        [rewrite E in Hp; destruct Hp; discriminate |].
      reflexivity. }
  rewrite Hsame. repeat split; reflexivity.
Qed.

Lemma onChange_run key value app :
  ((o <- getSettings ;; setSettings (<[key := value]> o)) ;; saveSettings) app =
  let o' := <[key := value]> (settings (plugin app)) in
  let edited := withPlugin (mkPlugin o' (interval (plugin app))) app in
  if dataFaulty (pluginCalls app) (CallSaveData o')
  then (Rejected (DataError (CallSaveData o')), called (CallSaveData o') edited)
  else (Fulfilled tt, withDataFile (Some o') (called (CallSaveData o') edited)).
Proof.
  unfold andThen at 1. unfold andThen at 1. unfold getSettings, setSettings.
  rewrite saveSettings_run. reflexivity.
Qed.

(** Editing a text field of the settings tab sets that one property of the
    settings, keeps every other property, starts no sync, and writes the
    whole object to the data file.  The property is set before the save is
    awaited: when the save rejects the new value is in use all the same,
    and the data file keeps the old one. *)
Theorem onChange_edits_one_setting value app :
  let old := readSettings (settings (plugin app)) in
  let edit (key : string) (handler : string -> Task unit) :=
    let o' := <[key := value]> (settings (plugin app)) in
    let app' := snd (handler value app) in
    settings (plugin app') = o' /\
    interval (plugin app') = interval (plugin app) /\
    run app' = run app /\ intervals app' = intervals app /\
    (dataFaulty (pluginCalls app) (CallSaveData o') = false ->
     fst (handler value app) = Fulfilled tt /\ dataFile app' = Some o') /\
    (dataFaulty (pluginCalls app) (CallSaveData o') = true ->
     fst (handler value app) = Rejected (DataError (CallSaveData o')) /\
     dataFile app' = dataFile app) in
  edit "feedUrl" onFeedUrlChange /\
  edit "folderPath" onFolderPathChange /\
  readSettings (settings (plugin (snd (onFeedUrlChange value app)))) =
    {| feedUrl := value; folderPath := folderPath old |} /\
  readSettings (settings (plugin (snd (onFolderPathChange value app)))) =
    {| feedUrl := feedUrl old; folderPath := value |}.
Proof.
  cbv zeta. unfold onFeedUrlChange, onFolderPathChange.
  rewrite !onChange_run. cbv zeta.
  split; [| split; [| split]].
  - destruct (dataFaulty _ _); simpl; repeat split; try reflexivity;
      intros; discriminate.
  - destruct (dataFaulty _ _); simpl; repeat split; try reflexivity;
      intros; discriminate.
  - destruct (dataFaulty _ _); simpl; unfold readSettings;
      rewrite lookup_insert_eq, lookup_insert_ne by discriminate; reflexivity.
  - destruct (dataFaulty _ _); simpl; unfold readSettings;
      rewrite lookup_insert_eq, lookup_insert_ne by discriminate; reflexivity.
Qed.
End Settings.

(** ** Life cycle: load, timer, manual sync, unload *)

Section Lifecycle_facts.
Context `{PluginHost}.
Local Open Scope task_scope.

Lemma checkFeedTask_run fuel url app :
  checkFeedTask fuel url app =
  liftRun (checkFeed (readSettings (settings (plugin app))) fuel url) app.
Proof. reflexivity. Qed.

(** A run started from the default settings does nothing. *)
Lemma checkFeed_empty_url (s : PlexWatchlistSettings) fuel st :
  truthy (feedUrl s) = false -> checkFeed s fuel None st = (Ret tt, st).
Proof.
  intros Hurl. rewrite checkFeed_unfold. unfold js_or. rewrite Hurl.
  reflexivity.
Qed.

(** The Sync Now button.  Whenever the run returns (the chain of pages
    ends), the click shows the success notice, whatever the run printed:
    the notice does not depend on the outcome of the sync. *)
Theorem onSyncNowClick_notifies fuel app :
  let s := readSettings (settings (plugin app)) in
  (truthy (feedUrl s) = true -> chainEnds fuel (feedUrl s) = true) ->
  exists st',
    checkFeed s fuel None (run app) = (Ret tt, st') /\
    onSyncNowClick fuel app =
      (Fulfilled tt,
       noticed "Plex Watchlist synced successfully." (withRun st' app)).
Proof.
  intros s Hends.
  assert (Hret : fst (checkFeed s fuel None (run app)) = Ret tt).
  { destruct (truthy (feedUrl s)) eqn:Hurl.
    - pose proof (checkFeed_returns s fuel _ (run app) (Hends eq_refl) Hurl)
        as Hret.
      rewrite checkFeed_unfold, (js_or_Some _ _ Hurl), Hurl in Hret.
      rewrite checkFeed_unfold. unfold js_or. rewrite Hurl. exact Hret.
    - rewrite (checkFeed_empty_url _ _ _ Hurl). reflexivity. }
  destruct (checkFeed s fuel None (run app)) as [r st'] eqn:Hrun.
  simpl in Hret. subst r. exists st'. split; [reflexivity |].
  unfold onSyncNowClick, andThen. rewrite checkFeedTask_run. unfold liftRun.
  fold s. rewrite Hrun. reflexivity.
Qed.

(** First start: nothing was ever saved.  [onload] installs the default
    settings, adds the settings tab, and starts one timer of one hour; the
    initial sync, with an empty feed URL, fetches nothing and leaves the
    vault and the console as they were. *)
Theorem onload_fresh_install fuel app :
  dataFile app = None ->
  dataFaulty (pluginCalls app) CallLoadData = false ->
  exists app',
    onload fuel app = (Fulfilled tt, app') /\
    settings (plugin app') = settingsObject DEFAULT_SETTINGS /\
    readSettings (settings (plugin app')) = DEFAULT_SETTINGS /\
    run app' = run app /\
    settingTabs app' = S (settingTabs app) /\
    interval (plugin app') = Some (nextInterval app) /\
    intervals app' = <[nextInterval app := 3600000%Z]> (intervals app) /\
    notices app' = notices app /\ dataFile app' = None.
Proof.
  intros Hnone Hok. unfold onload, andThen.
  rewrite loadSettings_run, Hok, Hnone. simpl.
  rewrite (left_id_L ∅ (∪)).
  unfold detached. rewrite checkFeedTask_run. unfold liftRun. simpl.
  assert (Hread : readSettings (settingsObject DEFAULT_SETTINGS) = DEFAULT_SETTINGS)
    by reflexivity.
  rewrite Hread, checkFeed_empty_url by reflexivity. simpl.
  unfold startCheckingFeed, andThen, setInterval. simpl.
  eexists. split; [reflexivity |]. simpl. rewrite Hnone.
  repeat split; reflexivity.
Qed.

(** A timer that comes due reads the settings at that moment: after the
    feed URL was edited in the settings tab the run starts at the new URL,
    without reloading the plugin and also when saving the edit failed. *)
Theorem intervalFires_reads_current_settings fuel id value app :
  is_Some (intervals app !! id) ->
  let edited := snd (onFeedUrlChange value app) in
  let s := {| feedUrl := value;
              folderPath := folderPath (readSettings (settings (plugin app))) |} in
  intervalFires fuel id edited =
    (Fulfilled tt, withRun (snd (checkFeed s fuel None (run app))) edited).
Proof.
  intros [period Hid] edited s. subst edited.
  unfold onFeedUrlChange. rewrite onChange_run. cbv zeta.
  assert (Hread : readSettings (<["feedUrl" := value]> (settings (plugin app))) = s).
  { unfold readSettings, s.
    rewrite lookup_insert_eq, lookup_insert_ne by discriminate. reflexivity. }
  destruct (dataFaulty _ _); simpl;
    unfold intervalFires; simpl; rewrite Hid;
    unfold detached; rewrite checkFeedTask_run; unfold liftRun; simpl;
    rewrite Hread;
    destruct (checkFeed s fuel None (run app)) as [[[] | e |] st']; reflexivity.
Qed.

(** Unloading stops the timer that [onload] started: the table of active
    timers is as before the plugin was loaded, and the stopped timer never
    runs a sync again.  Only the handle stored last is cleared: a timer
    started by an earlier call of [startCheckingFeed] stays active. *)
Theorem onunload_stops_timer fuel fuel' app :
  intervals app !! nextInterval app = None ->
  dataFaulty (pluginCalls app) CallLoadData = false ->
  let loaded := snd (onload fuel app) in
  let unloaded := snd (onunload loaded) in
  fst (onload fuel app) = Fulfilled tt /\
  intervals loaded !! nextInterval app = Some 3600000%Z /\
  onunload loaded = (Fulfilled tt, unloaded) /\
  intervals unloaded = intervals app /\
  intervalFires fuel' (nextInterval app) unloaded = (Fulfilled tt, unloaded) /\
  intervals (snd ((startCheckingFeed ;; startCheckingFeed ;; onunload) app))
    !! nextInterval app = Some 3600000%Z.
Proof.
  intros Hfresh Hok. cbv zeta.
  unfold onload, andThen. rewrite loadSettings_run, Hok. cbv beta iota.
  unfold detached. cbv beta iota.
  destruct (checkFeedTask fuel None _) as [r app1] eqn:Hrun. simpl snd.
  assert (Hkeep : intervals app1 = intervals app /\
                  nextInterval app1 = nextInterval app).
  { rewrite checkFeedTask_run in Hrun. unfold liftRun in Hrun.
    destruct (checkFeed _ _ _ _) as [[[] | e |] st'];
      injection Hrun as _ <-; split; reflexivity. }
  destruct Hkeep as [Hint Hnext].
  unfold startCheckingFeed, andThen, setInterval, onunload, clearInterval.
  simpl. rewrite Hint, Hnext.
  split; [reflexivity |].
  split; [apply lookup_insert_eq |].
  split; [reflexivity |].
  split; [rewrite delete_insert_eq; apply delete_id; exact Hfresh |].
  split.
  - unfold intervalFires. simpl.
    rewrite delete_insert_eq, (delete_id _ _ Hfresh), Hfresh. reflexivity.
  - rewrite lookup_delete_ne by lia.
    rewrite lookup_insert_ne by lia. apply lookup_insert_eq.
Qed.
End Lifecycle_facts.

(** ** The life cycle on the sample application *)

(** Witness for [loadSettings_merges]: only the folder path was stored. *)
Lemma loadSettings_merges_sample :
  let app :=
    withDataFile (Some {["folderPath" := "media"]}) SampleApp.fresh in
  exists app',
    loadSettings (H := SampleApp.pluginHost Sample.reliable (fun _ _ => false)) app =
      (Fulfilled tt, app') /\
    readSettings (settings (plugin app')) =
      {| feedUrl := EmptyString; folderPath := "media" |}.
Proof.
  intros app.
  destruct (loadSettings_merges
              (H := SampleApp.pluginHost Sample.reliable (fun _ _ => false))
              app eq_refl)
    as (app' & Hrun & Hstored & Hdefault & _).
  exists app'. split; [exact Hrun |].
  unfold readSettings.
  rewrite (Hstored "folderPath" "media" eq_refl).
  rewrite (Hdefault "feedUrl" eq_refl). reflexivity.
Defined.

(** Witness for [saveSettings_loadSettings]. *)
Lemma saveSettings_loadSettings_sample :
  let o := settingsObject (Sample.plex Sample.url1) in
  let app := withPlugin (mkPlugin o None) SampleApp.fresh in
  let host := SampleApp.pluginHost Sample.reliable (fun _ _ => false) in
  exists app',
    (andThen (saveSettings (H := host)) (fun _ => loadSettings (H := host))) app =
      (Fulfilled tt, app') /\
    settings (plugin app') = o /\ dataFile app' = Some o.
Proof.
  intros o app host.
  destruct (saveSettings_loadSettings (H := host) app)
    as (app' & Hrun & Hsame & Hfile & _).
  - vm_compute. eauto.
  - vm_compute. eauto.
  - reflexivity.
  - reflexivity.
  - exists app'. repeat split; assumption.
Defined.

(** Witness for [onSyncNowClick_notifies]: the fetch of the second page
    rejects, the run prints the error, and the notice is shown. *)
Lemma onSyncNowClick_notifies_sample :
  let host := SampleApp.pluginHost Sample.page2Down (fun _ _ => false) in
  let app :=
    withPlugin (mkPlugin (settingsObject (Sample.plex Sample.url1)) None)
      SampleApp.fresh in
  let clicked := snd (onSyncNowClick (H := host) 5 app) in
  fst (onSyncNowClick (H := host) 5 app) = Fulfilled tt /\
  notices clicked = ["Plex Watchlist synced successfully."] /\
  errorCount (console (run clicked)) = 1.
Proof.
  intros host app clicked.
  destruct (onSyncNowClick_notifies (H := host) 5 app) as (st' & Hrun & Hclick).
  - intros _. vm_compute. reflexivity.
  - subst clicked. rewrite Hclick. simpl.
    repeat split. apply (f_equal snd) in Hrun. simpl in Hrun. subst st'.
    vm_compute. reflexivity.
Defined.

(** Witness for [onload_fresh_install]. *)
Lemma onload_fresh_install_sample :
  let host := SampleApp.pluginHost Sample.reliable (fun _ _ => false) in
  exists app',
    onload (H := host) 5 SampleApp.fresh = (Fulfilled tt, app') /\
    run app' = Sample.fresh /\
    interval (plugin app') = Some 1 /\
    intervals app' = {[1 := 3600000%Z]}.
Proof.
  intros host.
  destruct (onload_fresh_install (H := host) 5 SampleApp.fresh eq_refl eq_refl)
    as (app' & Hrun & _ & _ & Hworld & _ & Hhandle & Htimers & _).
  exists app'. repeat split; assumption.
Defined.

(** Witness for [intervalFires_reads_current_settings]: the URL is changed
    from the first sample page to the third, the save is rejected, and the
    timer fetches the third page. *)
Lemma intervalFires_reads_current_settings_sample :
  let host := SampleApp.pluginHost Sample.reliable (fun _ _ => true) in
  let app :=
    withIntervals {[1 := 3600000%Z]} 2
      (withPlugin (mkPlugin (settingsObject (Sample.plex Sample.url1)) (Some 1))
         SampleApp.fresh) in
  let edited := snd (onFeedUrlChange (H := host) Sample.url3 app) in
  dataFile edited = None /\
  fetched (history (run (snd (intervalFires (H := host) 0 1 edited)))) =
    [Sample.url3].
Proof.
  intros host app edited.
  split; [vm_compute; reflexivity |]. subst edited.
  rewrite (intervalFires_reads_current_settings (H := host) 0 1 Sample.url3 app).
  - vm_compute. reflexivity.
  - vm_compute. eauto.
Defined.

(** Witness for [onunload_stops_timer]. *)
Lemma onunload_stops_timer_sample :
  let host := SampleApp.pluginHost Sample.reliable (fun _ _ => false) in
  let app := SampleApp.configured Sample.url3 in
  let unloaded := snd (onunload (snd (onload (H := host) 0 app))) in
  intervals unloaded = ∅ /\
  intervalFires (H := host) 0 1 unloaded = (Fulfilled tt, unloaded).
Proof.
  intros host app unloaded.
  destruct (onunload_stops_timer (H := host) 0 0 app eq_refl eq_refl)
    as (_ & _ & _ & Hcleared & Hquiet & _).
  split; [exact Hcleared | exact Hquiet].
Defined.

(** Witness for [checkFeed_fetches_the_chain]: the three sample pages. *)
Lemma checkFeed_fetches_the_chain_sample :
  let run := checkFeed (H := Sample.reliable) (Sample.plex Sample.url1) 5 None
               Sample.fresh in
  fst run = Ret tt /\
  fetched (history (snd run)) = [Sample.url1; Sample.url2; Sample.url3].
Proof.
  intros run.
  destruct (checkFeed_fetches_the_chain (H := Sample.reliable)
              (Sample.plex Sample.url1) (fun _ _ => eq_refl) (fun _ _ => eq_refl)
              5 None Sample.fresh eq_refl)
    as (Hret & _ & Hfetched).
  split; [apply Hret; vm_compute; reflexivity |].
  subst run. rewrite Hfetched. vm_compute. reflexivity.
Defined.

(** Witness for [self_linked_feed_never_returns]. *)
Lemma self_linked_feed_never_returns_sample :
  let run := checkFeed (H := SampleApp.reliable) (Sample.plex SampleApp.urlLoop)
               3 (Some SampleApp.urlLoop) Sample.fresh in
  nextUrlOf (H := SampleApp.reliable)
    (body (Host := SampleApp.reliable) SampleApp.urlLoop) =
    Some SampleApp.urlLoop /\
  fst run = Pending /\
  fetched (history (snd run)) = repeat SampleApp.urlLoop 4.
Proof.
  intros run.
  assert (Hself : nextUrlOf (H := SampleApp.reliable)
                    (body (Host := SampleApp.reliable) SampleApp.urlLoop) =
                  Some SampleApp.urlLoop) by (vm_compute; reflexivity).
  split; [exact Hself |].
  exact (self_linked_feed_never_returns (H := SampleApp.reliable)
           (Sample.plex SampleApp.urlLoop) (fun _ _ => eq_refl)
           (fun _ _ => eq_refl) 3 SampleApp.urlLoop Sample.fresh eq_refl Hself).
Defined.

(** Witness for [pagination_survives_flush_failure]: no folder can be
    created, the flush of page 1 throws, and pages 2 and 3 are fetched. *)
Lemma pagination_survives_flush_failure_sample :
  let run := checkFeed (H := SampleApp.readOnly) (Sample.plex Sample.url1) 2
               (Some Sample.url1) Sample.fresh in
  errorCount (console (snd run)) = 3 /\
  exists more,
    fetched (history (snd run)) = Sample.url1 :: Sample.url2 :: more.
Proof.
  intros run.
  split; [vm_compute; reflexivity |].
  pose (pre := printed (Log_itemCount 2)
                 (issue (OpText Sample.url1)
                    (issue (OpFetch Sample.url1) Sample.fresh))).
  pose (block := updateWatchlist_try (H := SampleApp.readOnly)
                   (entriesOf (H := SampleApp.readOnly)
                      (body (Host := SampleApp.readOnly) Sample.url1))
                   "plex" pre).
  assert (Hthrow : block =
            (Throw (StorageError (OpCreateFolder "plex/shows")), snd block))
    by (vm_compute; reflexivity).
  destruct (pagination_survives_flush_failure (H := SampleApp.readOnly)
              (Sample.plex Sample.url1) (fun _ _ => eq_refl) (fun _ _ => eq_refl)
              1 Sample.url1 Sample.url2 Sample.fresh _ _ eq_refl
              ltac:(vm_compute; reflexivity) Hthrow)
    as (_ & more & Hfetched).
  exists more. exact Hfetched.
Defined.

(** Witness for [rejected_download_ends_run]: the second sample page is
    down. *)
Lemma rejected_download_ends_run_sample :
  checkFeed (H := Sample.page2Down) (Sample.plex Sample.url1) 5
    (Some Sample.url2) Sample.fresh =
  (Ret tt,
   printed (Error_feed (NetworkError (OpFetch Sample.url2)))
     (issue (OpFetch Sample.url2) Sample.fresh)).
Proof.
  exact (proj1 (rejected_download_ends_run (H := Sample.page2Down)
                  (Sample.plex Sample.url1) 5 Sample.url2 Sample.fresh eq_refl)
           eq_refl).
Defined.

(** ** Sessions *)

Section Sessions.
Context `{PluginHost}.
Local Open Scope task_scope.

(** What the user typed is what the next session uses.  After both text
    fields were edited and saved, loading the settings again, as the next
    start of the plugin does, yields the two values typed, whatever the
    settings were before. *)
Theorem edits_survive_reload url root app :
  let o1 := <["feedUrl" := url]> (settings (plugin app)) in
  let o2 := <["folderPath" := root]> o1 in
  dataFaulty (pluginCalls app) (CallSaveData o1) = false ->
  dataFaulty (CallSaveData o1 :: pluginCalls app) (CallSaveData o2) = false ->
  dataFaulty (CallSaveData o2 :: CallSaveData o1 :: pluginCalls app)
    CallLoadData = false ->
  exists app',
    (onFeedUrlChange url ;; onFolderPathChange root ;; loadSettings) app =
      (Fulfilled tt, app') /\
    readSettings (settings (plugin app')) =
      {| feedUrl := url; folderPath := root |} /\
    dataFile app' = Some o2 /\
    run app' = run app.
Proof.
  intros o1 o2 Hs1 Hs2 Hl.
  unfold andThen at 1. unfold onFeedUrlChange. rewrite onChange_run. cbv zeta.
  fold o1. rewrite Hs1.
  unfold andThen at 1. unfold onFolderPathChange. rewrite onChange_run.
  cbv zeta. simpl. fold o1. fold o2. rewrite Hs2.
  rewrite loadSettings_run. simpl. rewrite Hl.
  eexists. split; [reflexivity |].
  split; [| split; reflexivity].
  change (readSettings (o2 ∪ settingsObject DEFAULT_SETTINGS) =
          {| feedUrl := url; folderPath := root |}).
  unfold readSettings.
  rewrite (lookup_union_Some_l o2 _ "feedUrl" url),
    (lookup_union_Some_l o2 _ "folderPath" root); [reflexivity | ..];
    unfold o2, o1.
  - apply lookup_insert_eq.
  - rewrite lookup_insert_ne by discriminate. apply lookup_insert_eq.
Qed.

(** When reading the data file rejects, [onload] rejects at its first line:
    no settings tab is added, no sync is started, no timer is set, and the
    settings stay undefined. *)
Theorem onload_load_rejected fuel app :
  dataFaulty (pluginCalls app) CallLoadData = true ->
  exists app',
    onload fuel app = (Rejected (DataError CallLoadData), app') /\
    plugin app' = plugin app /\
    settingTabs app' = settingTabs app /\
    intervals app' = intervals app /\
    run app' = run app.
Proof.
  intros Hbad. unfold onload, andThen. rewrite loadSettings_run, Hbad.
  eexists. repeat split; reflexivity.
Qed.
End Sessions.

(** Witness for [edits_survive_reload]. *)
Lemma edits_survive_reload_sample :
  let host := SampleApp.pluginHost Sample.reliable (fun _ _ => false) in
  exists app',
    (andThen (onFeedUrlChange (H := host) Sample.url1)
       (fun _ => andThen (onFolderPathChange (H := host) "plex")
                   (fun _ => loadSettings (H := host)))) SampleApp.fresh =
      (Fulfilled tt, app') /\
    readSettings (settings (plugin app')) = Sample.plex Sample.url1.
Proof.
  intros host.
  destruct (edits_survive_reload (H := host) Sample.url1 "plex" SampleApp.fresh
              eq_refl eq_refl eq_refl)
    as (app' & Hrun & Hread & _).
  exists app'. split; [exact Hrun | exact Hread].
Defined.

(** Witness for [onload_load_rejected]. *)
Lemma onload_load_rejected_sample :
  let host := SampleApp.pluginHost Sample.reliable (fun _ _ => true) in
  exists app',
    onload (H := host) 5 (SampleApp.configured Sample.url1) =
      (Rejected (DataError CallLoadData), app') /\
    intervals app' = ∅ /\ run app' = Sample.fresh.
Proof.
  intros host.
  destruct (onload_load_rejected (H := host) 5 (SampleApp.configured Sample.url1)
              eq_refl)
    as (app' & Hrun & _ & _ & Htimers & Hworld).
  exists app'. repeat split; assumption.
Defined.

(** A flush interrupted at its second note: the write of the Severance note
    is rejected after the note of Dune was written. The rejection is printed
    and the call returns; the note of Dune holds its content, the path of
    the Severance note, which held nothing, holds a new empty file, and the
    index note was not written. *)
Lemma failures_contained_sample :
  let host := SampleFaults.severanceLocked in
  let shows := entriesOf (H := host) Sample.markup1 in
  let dune := parseItem (H := host) Sample.dune in
  let severance := parseItem (H := host) Sample.severance in
  let rejected := OpModify "plex/shows/Severance.md" (noteContent severance) in
  let block := updateWatchlist_try (H := host) shows "plex" Sample.fresh in
  let run := updateWatchlist (H := host) shows "plex" Sample.fresh in
  block = (Throw (StorageError rejected), snd block) /\
  run = (Ret tt, printed (Error_watchlist (StorageError rejected)) (snd block)) /\
  (exists done path data rest op,
     syncWrites (H := host) shows "plex" = (done ++ (path, data) :: rest)%list /\
     StorageError rejected = StorageError op /\
     interrupts op done path data /\
     modified (history (snd block)) =
       (modified (history Sample.fresh) ++ done ++ writeOf op)%list /\
     (files (vault (snd block)) = applyWrites done (files (vault Sample.fresh)) \/
      applyWrites done (files (vault Sample.fresh)) !! path = None /\
      files (vault (snd block)) =
        <[path := EmptyString]> (applyWrites done (files (vault Sample.fresh)))) /\
     (forall written content,
        lastWrite done written = Some content ->
        files (vault (snd run)) !! written = Some content)) /\
  modified (history (snd run)) =
    [("plex/movies/Dune_ Part One.md", noteContent dune);
     ("plex/shows/Severance.md", noteContent severance)] /\
  files (vault (snd run)) !! "plex/movies/Dune_ Part One.md" =
    Some (noteContent dune) /\
  files (vault (snd run)) !! "plex/shows/Severance.md" = Some EmptyString /\
  files (vault (snd run)) !! "plex/watch.md" = None.
Proof.
  intros host shows dune severance rejected block run.
  assert (Hblock : block = (Throw (StorageError rejected), snd block))
    by (vm_compute; reflexivity).
  destruct (failures_contained (H := host) (Sample.plex Sample.url1) 0 None
              shows "plex" Sample.fresh)
    as (_ & _ & _ & Hcaught & _ & Hsplit & _).
  split; [exact Hblock |].
  split; [apply Hcaught; exact Hblock |].
  split; [apply Hsplit; exact Hblock |].
  vm_compute. repeat split.
Defined.
